(** * ir_frontend: the term highlighter, the tokenizer and the search session

    A shallow embedding of [src/App.tsx] (and of its near copy, which differs
    in presentation and in one message only).  The component has three pieces
    of logic:

    - [highlightText], which builds one regular expression from the query
      terms, splits the document text with it and tags every part;
    - the tokenizer [query.split(/\s+/).filter(Boolean)];
    - [handleSearch], the asynchronous handler that drives the five state
      cells of the component.

    Strings are sequences of code units; the embedding covers the code units
    0..255 (type [ascii]), with the case mappings and the white space of that
    range.  The two library functions the code relies on, [new RegExp] and
    [String.prototype.split], are modelled after the ECMAScript definition:
    a parser of pattern sources, a backtracking matcher in continuation
    style, and the split loop. *)

From Stdlib Require Import Ascii String List Arith Bool Lia.
Import ListNotations.

Set Implicit Arguments.

(** ** Code units *)

Module CodeUnit.

Definition code (c : ascii) : nat := nat_of_ascii c.

Definition inRange (lo hi n : nat) : bool := (lo <=? n) && (n <=? hi).

(** [String.prototype.toLowerCase] on one code unit: A-Z, and the capital
    letters of the upper half (all of 192..222 but the multiplication sign). *)
Definition toLowerCase (c : ascii) : ascii :=
  let n := code c in
  if inRange 65 90 n || (inRange 192 222 n && negb (n =? 215))
  then ascii_of_nat (n + 32) else c.

(** [toUpperCase] on one code unit, as a code unit number: the micro sign and
    y-diaeresis leave the range, and the sharp s has no single-unit upper
    case ([None]). *)
Definition toUpperCase (c : ascii) : option nat :=
  let n := code c in
  if inRange 97 122 n || (inRange 224 254 n && negb (n =? 247)) then Some (n - 32)
  else if n =? 181 then Some 924
  else if n =? 255 then Some 376
  else if n =? 223 then None
  else Some n.

(** The regular expression engine's [Canonicalize] (no [u] flag). *)
Definition Canonicalize (ignoreCase : bool) (c : ascii) : nat :=
  if ignoreCase then
    match toUpperCase c with
    | None => code c
    | Some cu => if (128 <=? code c) && (cu <? 128) then code c else cu
    end
  else code c.

Definition isDigit (c : ascii) : bool := inRange 48 57 (code c).

(** [\w]: the basic word characters [A-Za-z0-9_]. *)
Definition isWordChar (c : ascii) : bool :=
  let n := code c in
  inRange 97 122 n || inRange 65 90 n || inRange 48 57 n || (n =? 95).

(** [\s], which is also what [trim] removes: TAB, LF, VT, FF, CR, space and
    the no-break space. *)
Definition isWhiteSpace (c : ascii) : bool :=
  let n := code c in
  inRange 9 13 n || (n =? 32) || (n =? 160).

(** Every code unit of the range, in order. *)
Definition allUnits : list ascii := map ascii_of_nat (seq 0 256).

Arguments allUnits : simpl never.
Arguments Canonicalize : simpl never.
Arguments toLowerCase : simpl never.
Arguments isWordChar : simpl never.
Arguments isWhiteSpace : simpl never.
Arguments isDigit : simpl never.

End CodeUnit.

(** ** Strings *)

Module Str.

Definition t := list ascii.

Definition ofString (s : string) : list ascii := list_ascii_of_string s.

Definition eqb (a b : t) : bool :=
  if list_eq_dec ascii_dec a b then true else false.

Definition toLowerCase (s : t) : t := map CodeUnit.toLowerCase s.

(** [s.substring(from, to)] for [from <= to]. *)
Definition substring (s : t) (from to : nat) : t :=
  firstn (to - from) (skipn from s).

Fixpoint trimStart (s : t) : t :=
  match s with
  | c :: s' => if CodeUnit.isWhiteSpace c then trimStart s' else s
  | [] => []
  end.

Definition trim (s : t) : t := rev (trimStart (rev (trimStart s))).

(** [parts.join(sep)]. *)
Fixpoint join (sep : t) (parts : list t) : t :=
  match parts with
  | [] => []
  | [p] => p
  | p :: rest => p ++ sep ++ join sep rest
  end.

End Str.

Coercion Str.ofString : string >-> list.

(** ** Regular expressions: [new RegExp(source, flags)]

    The pattern language of the engine without the [u] flag, with the
    web-compatibility extensions ([{], [}] and []] may stand for themselves).
    Constructs the program never writes and whose meaning needs more than a
    matcher over one string (back references, named groups, look-around,
    [\c], [\x], [\u]) are outside the model: their sources are refused like
    ill-formed ones. *)

Module RegExp.

Inductive ClassEscape := digit | word | space.

Inductive ClassAtom :=
| CChar (c : ascii)
| CRange (lo hi : ascii)
| CEscape (k : ClassEscape) (invert : bool).

Inductive Node :=
| Empty
| Char (c : ascii)
| Dot
| Class (invert : bool) (atoms : list ClassAtom)
| AssertBegin
| AssertEnd
| WordBoundary (invert : bool)
| Group (index : nat) (r : Node)
| Seq (r1 r2 : Node)
| Alt (r1 r2 : Node)
| Quant (min : nat) (max : option nat) (greedy : bool) (r : Node).

(** The syntax characters: the ones a pattern reads as operators. *)
Definition isSyntaxCharacter (c : ascii) : bool :=
  existsb (Ascii.eqb c)
    ["^"; "$"; "\"; "."; "*"; "+"; "?"; "("; ")"; "["; "]"; "{"; "}"; "|"]%char.

(** *** Parsing a pattern source *)

Definition digitValue (c : ascii) : nat := CodeUnit.code c - 48.

(** Decimal digits at the head of the input: their value, how many there
    were, and the rest. *)
Fixpoint parseDigits (acc count : nat) (s : Str.t) : nat * nat * Str.t :=
  match s with
  | c :: s' =>
      if CodeUnit.isDigit c
      then parseDigits (10 * acc + digitValue c) (S count) s'
      else (acc, count, s)
  | [] => (acc, count, s)
  end.

(** The body of a braced quantifier, after the opening brace:
    [n}], [n,}] or [n,m}]. *)
Definition parseBraces (s : Str.t) : option (nat * option nat * Str.t) :=
  match parseDigits 0 0 s with
  | (_, 0, _) => None
  | (lo, _, "}"%char :: rest) => Some (lo, Some lo, rest)
  | (lo, _, ","%char :: "}"%char :: rest) => Some (lo, None, rest)
  | (lo, _, ","%char :: s') =>
      match parseDigits 0 0 s' with
      | (_, 0, _) => None
      | (hi, _, "}"%char :: rest) => Some (lo, Some hi, rest)
      | _ => None
      end
  | _ => None
  end.

Inductive QuantifierPrefix :=
| NoQuantifier
| BadQuantifier
| Quantifier (min : nat) (max : option nat) (rest : Str.t).

Definition parseQuantifierPrefix (s : Str.t) : QuantifierPrefix :=
  match s with
  | "*"%char :: rest => Quantifier 0 None rest
  | "+"%char :: rest => Quantifier 1 None rest
  | "?"%char :: rest => Quantifier 0 (Some 1) rest
  | "{"%char :: s' =>
      match parseBraces s' with
      | Some (lo, Some hi, rest) =>
          if hi <? lo then BadQuantifier else Quantifier lo (Some hi) rest
      | Some (lo, None, rest) => Quantifier lo None rest
      | None => NoQuantifier
      end
  | _ => NoQuantifier
  end.

(** An atom followed by its optional quantifier (and the [?] that makes it
    lazy). *)
Definition quantified (atom : Node) (s : Str.t) : option (Node * Str.t) :=
  match parseQuantifierPrefix s with
  | NoQuantifier => Some (atom, s)
  | BadQuantifier => None
  | Quantifier lo hi ("?"%char :: rest) => Some (Quant lo hi false atom, rest)
  | Quantifier lo hi rest => Some (Quant lo hi true atom, rest)
  end.

(** The character a control escape or an identity escape stands for;
    [None] for the escapes outside the model. *)
Definition escapedChar (c : ascii) : option ascii :=
  match c with
  | "t"%char => Some (ascii_of_nat 9)
  | "n"%char => Some (ascii_of_nat 10)
  | "v"%char => Some (ascii_of_nat 11)
  | "f"%char => Some (ascii_of_nat 12)
  | "r"%char => Some (ascii_of_nat 13)
  | "c"%char | "x"%char | "u"%char | "k"%char => None
  | _ => if CodeUnit.isDigit c then None else Some c
  end.

Definition classEscape (c : ascii) : option (ClassEscape * bool) :=
  match c with
  | "d"%char => Some (digit, false)
  | "D"%char => Some (digit, true)
  | "w"%char => Some (word, false)
  | "W"%char => Some (word, true)
  | "s"%char => Some (space, false)
  | "S"%char => Some (space, true)
  | _ => None
  end.

(** [\ c] as an atom. *)
Definition atomEscape (c : ascii) : option Node :=
  match classEscape c with
  | Some (k, inv) => Some (Class false [CEscape k inv])
  | None => option_map Char (escapedChar c)
  end.

(** One class atom at the head of the input. *)
Definition parseClassAtom (s : Str.t) : option (ClassAtom * Str.t) :=
  match s with
  | [] => None
  | "\"%char :: c :: rest =>
      match classEscape c with
      | Some (k, inv) => Some (CEscape k inv, rest)
      | None =>
          match c with
          | "b"%char => Some (CChar (ascii_of_nat 8), rest)
          | "0"%char => Some (CChar (ascii_of_nat 0), rest)
          | _ => option_map (fun a => (CChar a, rest)) (escapedChar c)
          end
      end
  | "\"%char :: [] => None
  | c :: rest => Some (CChar c, rest)
  end.

(** The atoms of a class up to its closing bracket. *)
Fixpoint parseClassAtoms (fuel : nat) (s : Str.t) : option (list ClassAtom * Str.t) :=
  match fuel with
  | 0 => None
  | S fuel' =>
      match s with
      | "]"%char :: rest => Some ([], rest)
      | _ =>
          match parseClassAtom s with
          | None => None
          | Some (a, "-"%char :: "]"%char :: rest) => Some ([a; CChar "-"], rest)
          | Some (a, "-"%char :: s') =>
              match parseClassAtom s' with
              | None => None
              | Some (b, rest) =>
                  match a, b with
                  | CChar lo, CChar hi =>
                      if CodeUnit.code hi <? CodeUnit.code lo then None
                      else option_map (fun r => (CRange lo hi :: fst r, snd r))
                                      (parseClassAtoms fuel' rest)
                  | _, _ =>
                      option_map (fun r => (a :: CChar "-" :: b :: fst r, snd r))
                                 (parseClassAtoms fuel' rest)
                  end
              end
          | Some (a, rest) =>
              option_map (fun r => (a :: fst r, snd r)) (parseClassAtoms fuel' rest)
          end
      end
  end.

Definition parseClass (s : Str.t) : option (Node * Str.t) :=
  match s with
  | "^"%char :: s' =>
      option_map (fun r => (Class true (fst r), snd r))
                 (parseClassAtoms (S (length s')) s')
  | _ =>
      option_map (fun r => (Class false (fst r), snd r))
                 (parseClassAtoms (S (length s)) s)
  end.

(** Disjunction, Alternative and Term of the grammar.  [n] counts the
    capturing groups opened so far; a group is numbered by its opening
    parenthesis. *)
Fixpoint parseDisjunction (fuel n : nat) (s : Str.t) {struct fuel}
  : option (Node * nat * Str.t) :=
  match fuel with
  | 0 => None
  | S fuel' =>
      match parseAlternative fuel' n s with
      | Some (a, n1, "|"%char :: rest) =>
          match parseDisjunction fuel' n1 rest with
          | Some (d, n2, rest') => Some (Alt a d, n2, rest')
          | None => None
          end
      | other => other
      end
  end

with parseAlternative (fuel n : nat) (s : Str.t) {struct fuel}
  : option (Node * nat * Str.t) :=
  match fuel with
  | 0 => None
  | S fuel' =>
      match s with
      | [] | "|"%char :: _ | ")"%char :: _ => Some (Empty, n, s)
      | _ =>
          match parseTerm fuel' n s with
          | Some (t, n1, rest) =>
              match parseAlternative fuel' n1 rest with
              | Some (a, n2, rest') => Some (Seq t a, n2, rest')
              | None => None
              end
          | None => None
          end
      end
  end

with parseTerm (fuel n : nat) (s : Str.t) {struct fuel}
  : option (Node * nat * Str.t) :=
  match fuel with
  | 0 => None
  | S fuel' =>
      let atom (r : option (Node * Str.t)) :=
        match r with
        | Some (a, rest) =>
            option_map (fun q => (fst q, n, snd q)) (quantified a rest)
        | None => None
        end in
      match s with
      | [] => None
      | "^"%char :: rest => Some (AssertBegin, n, rest)
      | "$"%char :: rest => Some (AssertEnd, n, rest)
      | "\"%char :: "b"%char :: rest => Some (WordBoundary false, n, rest)
      | "\"%char :: "B"%char :: rest => Some (WordBoundary true, n, rest)
      | "\"%char :: c :: rest => atom (option_map (fun a => (a, rest)) (atomEscape c))
      | "\"%char :: [] => None
      | "."%char :: rest => atom (Some (Dot, rest))
      | "["%char :: rest => atom (parseClass rest)
      | "("%char :: "?"%char :: ":"%char :: rest =>
          match parseDisjunction fuel' n rest with
          | Some (d, n1, ")"%char :: rest') =>
              option_map (fun q => (fst q, n1, snd q)) (quantified d rest')
          | _ => None
          end
      | "("%char :: "?"%char :: _ => None
      | "("%char :: rest =>
          match parseDisjunction fuel' (S n) rest with
          | Some (d, n1, ")"%char :: rest') =>
              option_map (fun q => (fst q, n1, snd q))
                         (quantified (Group (S n) d) rest')
          | _ => None
          end
      | "*"%char :: _ | "+"%char :: _ | "?"%char :: _ => None
      | "{"%char :: rest =>
          match parseBraces rest with
          | Some _ => None
          | None => atom (Some (Char "{", rest))
          end
      | c :: rest => atom (Some (Char c, rest))
      end
  end.

(** A whole pattern: a disjunction that consumes the source. *)
Definition parsePattern (source : Str.t) : option (Node * nat) :=
  match parseDisjunction (3 * length source + 3) 0 source with
  | Some (r, n, []) => Some (r, n)
  | _ => None
  end.

(** *** Matching

    The matcher of a node takes the state reached so far and a continuation
    for the rest of the pattern; alternatives are tried in the order they are
    written, and the first one the continuation accepts is the result. *)

Definition Captures := list (option (nat * nat)).

Record MatchState := { endIndex : nat; captures : Captures }.

Definition Continuation := MatchState -> option MatchState.

Definition Matcher := MatchState -> Continuation -> option MatchState.

Fixpoint setCapture (i : nat) (v : option (nat * nat)) (caps : Captures) : Captures :=
  match caps, i with
  | [], _ => []
  | _ :: rest, 0 => v :: rest
  | c :: rest, S i' => c :: setCapture i' v rest
  end.

(** The numbers of the capturing groups inside a node. *)
Fixpoint groupsOf (r : Node) : list nat :=
  match r with
  | Group k r' => k :: groupsOf r'
  | Seq r1 r2 | Alt r1 r2 => groupsOf r1 ++ groupsOf r2
  | Quant _ _ _ r' => groupsOf r'
  | _ => []
  end.

Definition clearCaptures (groups : list nat) (caps : Captures) : Captures :=
  fold_left (fun cs k => setCapture (k - 1) None cs) groups caps.

Definition isLineTerminator (c : ascii) : bool :=
  (CodeUnit.code c =? 10) || (CodeUnit.code c =? 13).

Definition classAtomHas (a : ClassAtom) (c : ascii) : bool :=
  match a with
  | CChar x => Ascii.eqb x c
  | CRange lo hi => CodeUnit.inRange (CodeUnit.code lo) (CodeUnit.code hi) (CodeUnit.code c)
  | CEscape k inv =>
      xorb inv
        match k with
        | digit => CodeUnit.isDigit c
        | word => CodeUnit.isWordChar c
        | space => CodeUnit.isWhiteSpace c
        end
  end.

Definition classHas (atoms : list ClassAtom) (c : ascii) : bool :=
  existsb (fun a => classAtomHas a c) atoms.

Section Matching.

Variable input : Str.t.
Variables ignoreCase multiline : bool.

Definition canon : ascii -> nat := CodeUnit.Canonicalize ignoreCase.

(** Whether the set [A] has a member with the canonical form of [ch]. *)
Definition setHas (A : ascii -> bool) (ch : ascii) : bool :=
  existsb (fun a => A a && (canon a =? canon ch)) CodeUnit.allUnits.

Definition characterSetMatcher (A : ascii -> bool) (invert : bool) : Matcher :=
  fun x c =>
    match nth_error input (endIndex x) with
    | None => None
    | Some ch =>
        if Bool.eqb (setHas A ch) invert then None
        else c {| endIndex := S (endIndex x); captures := captures x |}
    end.

Definition wordCharAt (e : nat) : bool :=
  match nth_error input e with
  | Some ch => CodeUnit.isWordChar ch
  | None => false
  end.

Definition wordCharBefore (e : nat) : bool :=
  match e with
  | 0 => false
  | S e' => wordCharAt e'
  end.

(** [\b] holds at [e] when exactly one of the two neighbours is a word
    character. *)
Definition atWordBoundary (e : nat) : bool :=
  xorb (wordCharBefore e) (wordCharAt e).

Definition atLineStart (e : nat) : bool :=
  match e with
  | 0 => true
  | S e' =>
      multiline &&
      match nth_error input e' with
      | Some ch => isLineTerminator ch
      | None => false
      end
  end.

Definition atLineEnd (e : nat) : bool :=
  match nth_error input e with
  | None => e =? length input
  | Some ch => multiline && isLineTerminator ch
  end.

Definition assertion (holds : nat -> bool) : Matcher :=
  fun x c => if holds (endIndex x) then c x else None.

(** The repetition of [m].  An iteration that matches the empty string ends
    the repetition, so the number of iterations is at most [min] plus the
    number of code units left: [fuel] is chosen above that. *)
Fixpoint repeatMatcher (fuel : nat) (m : Matcher) (groups : list nat)
    (min : nat) (max : option nat) (greedy : bool) : Matcher :=
  fun x c =>
    match fuel with
    | 0 => None
    | S fuel' =>
        match max with
        | Some 0 => c x
        | _ =>
            let d : Continuation := fun y =>
              if (min =? 0) && (endIndex y =? endIndex x) then None
              else repeatMatcher fuel' m groups (pred min) (option_map pred max) greedy y c in
            let xr := {| endIndex := endIndex x;
                         captures := clearCaptures groups (captures x) |} in
            if negb (min =? 0) then m xr d
            else if greedy then
              match m xr d with
              | Some z => Some z
              | None => c x
              end
            else
              match c x with
              | Some z => Some z
              | None => m xr d
              end
        end
    end.

Fixpoint matchNode (r : Node) : Matcher :=
  match r with
  | Empty => fun x c => c x
  | Char ch => characterSetMatcher (Ascii.eqb ch) false
  | Dot => characterSetMatcher (fun a => negb (isLineTerminator a)) false
  | Class invert atoms => characterSetMatcher (classHas atoms) invert
  | AssertBegin => assertion atLineStart
  | AssertEnd => assertion atLineEnd
  | WordBoundary invert => assertion (fun e => xorb (atWordBoundary e) invert)
  | Group k r' => fun x c =>
      matchNode r' x (fun y =>
        c {| endIndex := endIndex y;
             captures := setCapture (k - 1) (Some (endIndex x, endIndex y)) (captures y) |})
  | Seq r1 r2 => fun x c => matchNode r1 x (fun y => matchNode r2 y c)
  | Alt r1 r2 => fun x c =>
      match matchNode r1 x c with
      | Some z => Some z
      | None => matchNode r2 x c
      end
  | Quant min max greedy r' => fun x c =>
      repeatMatcher (min + (length input - endIndex x) + 1)
                    (matchNode r') (groupsOf r') min max greedy x c
  end.

End Matching.

(** *** The RegExp object *)

Record t := {
  pattern : Node;
  groupCount : nat;
  global : bool;
  ignoreCase : bool;
  multiline : bool
}.

(** The flags [g], [i] and [m], each at most once. *)
Fixpoint parseFlags (flags : Str.t) (g i m : bool) : option (bool * bool * bool) :=
  match flags with
  | [] => Some (g, i, m)
  | "g"%char :: rest => if g then None else parseFlags rest true i m
  | "i"%char :: rest => if i then None else parseFlags rest g true m
  | "m"%char :: rest => if m then None else parseFlags rest g i true
  | _ => None
  end.

(** [new RegExp(source, flags)]; [None] is the SyntaxError. *)
Definition create (source flags : Str.t) : option t :=
  match parsePattern source, parseFlags flags false false false with
  | Some (r, n), Some (g, i, m) =>
      Some {| pattern := r; groupCount := n; global := g; ignoreCase := i; multiline := m |}
  | _, _ => None
  end.

(** One attempt to match at [index], nowhere else. *)
Definition matchAt (R : t) (input : Str.t) (index : nat) : option MatchState :=
  matchNode input (ignoreCase R) (multiline R) (pattern R)
    {| endIndex := index; captures := repeat None (groupCount R) |}
    (fun y => Some y).

End RegExp.

(** ** The error monad

    A computation that throws is [None]. *)

Definition bind {A B : Type} (m : option A) (f : A -> option B) : option B :=
  match m with
  | Some a => f a
  | None => None
  end.

Notation "x <- m ;; k" := (bind m (fun x => k))
  (at level 61, m at next level, right associativity).

Fixpoint mapM {A B : Type} (f : A -> option B) (l : list A) : option (list B) :=
  match l with
  | [] => Some []
  | a :: l' =>
      b <- f a ;;
      bs <- mapM f l' ;;
      Some (b :: bs)
  end.

(** ** [String.prototype.split] and [String.prototype.replace] with a RegExp *)

Module StringProto.

(** What [split] pushes: the text between two matches, given by its two
    ends, or a capture of the match, which is undefined when its group took
    no part. *)
Inductive Piece :=
| Fragment (from to : nat)
| Capture (c : option (nat * nat)).

(** A value of the resulting array: a string or [undefined]. *)
Definition pieceValue (subject : Str.t) (p : Piece) : option Str.t :=
  match p with
  | Fragment from to => Some (Str.substring subject from to)
  | Capture (Some (from, to)) => Some (Str.substring subject from to)
  | Capture None => None
  end.

Section Split.

Variable R : RegExp.t.
Variable subject : Str.t.

Let size := length subject.

(** The loop of [split]: [p] is the end of the last match taken, [q] the
    index tried next.  A match that ends where the last one ended is
    skipped.  [None] when the fuel runs out. *)
Fixpoint splitLoop (fuel p q : nat) : option (list Piece) :=
  match fuel with
  | 0 => None
  | S fuel' =>
      if q <? size then
        match RegExp.matchAt R subject q with
        | None => splitLoop fuel' p (q + 1)
        | Some z =>
            let e := Nat.min (RegExp.endIndex z) size in
            if e =? p then splitLoop fuel' p (q + 1)
            else
              option_map
                (fun rest => Fragment p q :: map Capture (RegExp.captures z) ++ rest)
                (splitLoop fuel' e e)
        end
      else Some [Fragment p size]
  end.

Definition splitPieces : option (list Piece) :=
  if size =? 0 then
    match RegExp.matchAt R subject 0 with
    | Some _ => Some []
    | None => Some [Fragment 0 0]
    end
  else splitLoop (2 * size + 1) 0 0.

(** [subject.split(R)] without a limit. *)
Definition split : option (list (option Str.t)) :=
  option_map (map (pieceValue subject)) splitPieces.

(** The first index from [i] on, among [n] candidates, at which the
    pattern matches: the search of [exec] without the sticky flag. *)
Fixpoint searchFrom (n i : nat) : option (nat * RegExp.MatchState) :=
  match n with
  | 0 => None
  | S n' =>
      match RegExp.matchAt R subject i with
      | Some z => Some (i, z)
      | None => searchFrom n' (i + 1)
      end
  end.

(** The replacement text for one match: [$$], [$&], [$`] and [$'] of the
    template; the numbered and named references are outside the model. *)
Fixpoint getSubstitution (template matched : Str.t) (position : nat) : option Str.t :=
  match template with
  | [] => Some []
  | "$"%char :: rest =>
      match rest with
      | "$"%char :: rest' =>
          option_map (cons "$"%char) (getSubstitution rest' matched position)
      | "&"%char :: rest' =>
          option_map (app matched) (getSubstitution rest' matched position)
      | "`"%char :: rest' =>
          option_map (app (Str.substring subject 0 position))
                     (getSubstitution rest' matched position)
      | "'"%char :: rest' =>
          option_map (app (Str.substring subject (position + length matched) size))
                     (getSubstitution rest' matched position)
      | c :: _ =>
          if CodeUnit.isDigit c || Ascii.eqb c "<" then None
          else option_map (cons "$"%char) (getSubstitution rest matched position)
      | [] => Some ["$"%char]
      end
  | c :: rest => option_map (cons c) (getSubstitution rest matched position)
  end.

(** The loop of [replace] for a global RegExp and a template: [lastIndex]
    is where the next search starts, [next] the end of the text already
    copied. *)
Fixpoint replaceLoop (fuel : nat) (template : Str.t) (lastIndex next : nat)
  : option Str.t :=
  match fuel with
  | 0 => None
  | S fuel' =>
      match searchFrom (size + 1 - lastIndex) lastIndex with
      | None => Some (Str.substring subject next size)
      | Some (position, z) =>
          let e := RegExp.endIndex z in
          let matched := Str.substring subject position e in
          replacement <- getSubstitution template matched position ;;
          if next <=? position then
            rest <- replaceLoop fuel' template (if e =? position then e + 1 else e) e ;;
            Some (Str.substring subject next position ++ replacement ++ rest)
          else
            replaceLoop fuel' template (if e =? position then e + 1 else e) next
      end
  end.

(** [subject.replace(R, template)] for a RegExp with the [g] flag. *)
Definition replace (template : Str.t) : option Str.t :=
  replaceLoop (size + 2) template 0 0.

End Split.

End StringProto.

(** ** The component *)

Module App.

Local Open Scope string_scope.
Local Open Scope list_scope.

(** *** highlightText *)

(** A rendered part of the text: a [<mark>] element or a [<span>] element
    (the key, which is the index of the part, and the style are left to the
    presentation). *)
Inductive Tag := matched | plain.

Definition Span := (Tag * Str.t)%type.

(** What [highlightText] returns: the text itself, or a fragment with one
    element for every part. *)
Inductive Rendered :=
| RawText (text : Str.t)
| Elements (children : list Span).

(** The segmentation a rendering shows: bare text is one plain span. *)
Definition spans (r : Rendered) : list Span :=
  match r with
  | RawText text => [(plain, text)]
  | Elements children => children
  end.

(** [t.replace(/[.*+?^${}()|[\]\\]/g, "\\$&")] *)
Definition escapeSource : Str.t := "[.*+?^${}()|[\]\\]".

Definition escapeTemplate : Str.t := "\$&".

Definition escapeTerm (t : Str.t) : option Str.t :=
  R <- RegExp.create escapeSource "g" ;;
  StringProto.replace R t escapeTemplate.

(** The source of the combined pattern:
    [`\\b(${terms.map(...).join("|")})\\b`]. *)
Definition patternSource (terms : list Str.t) : option Str.t :=
  escaped <- mapM escapeTerm terms ;;
  Some ("\b(" ++ Str.join "|" escaped ++ ")\b").

(** [terms.some((t) => t.toLowerCase() === part.toLowerCase())] *)
Definition isTerm (terms : list Str.t) (part : Str.t) : bool :=
  existsb (fun t => Str.eqb (Str.toLowerCase t) (Str.toLowerCase part)) terms.

(** One part of the split text as an element; reading [toLowerCase] of
    [undefined] throws. *)
Definition renderPart (terms : list Str.t) (part : option Str.t) : option Span :=
  match part with
  | None => None
  | Some s => Some (if isTerm terms s then (matched, s) else (plain, s))
  end.

Definition highlightText (text : Str.t) (terms : list Str.t) : option Rendered :=
  match terms with
  | [] => Some (RawText text)
  | _ =>
      source <- patternSource terms ;;
      pattern <- RegExp.create source "gi" ;;
      parts <- StringProto.split pattern text ;;
      children <- mapM (renderPart terms) parts ;;
      Some (Elements children)
  end.

(** The segmentation of [text] for [terms]. *)
Definition segment (text : Str.t) (terms : list Str.t) : option (list Span) :=
  option_map spans (highlightText text terms).

(** *** The tokenizer: [query.split(/\s+/).filter(Boolean)] *)

(** [filter(Boolean)] keeps the values that are neither [undefined] nor the
    empty string. *)
Fixpoint filterBoolean (parts : list (option Str.t)) : list Str.t :=
  match parts with
  | [] => []
  | Some (c :: s) :: rest => (c :: s) :: filterBoolean rest
  | _ :: rest => filterBoolean rest
  end.

Definition tokenize (query : Str.t) : option (list Str.t) :=
  R <- RegExp.create "\s+" "" ;;
  parts <- StringProto.split R query ;;
  Some (filterBoolean parts).

(** *** handleSearch and the session

    The component keeps five state cells.  [handleSearch] runs up to its
    [await] when the user submits; the rest of its body runs when the
    response of its own request arrives, whatever was submitted in between.
    A JavaScript number is only stored and shown, never computed with: its
    type is left open. *)

(** The two copies of the component differ in the message of the [catch]
    branch. *)
Inductive Copy := AppTsx | Responsive.

Definition BACKEND_URL : Str.t := "https://ir-backend-e4le.onrender.com/search".

Definition emptyQueryMessage : Str.t := "Please enter a query.".

Definition noMatchMessage : Str.t := "No matching documents found.".

Definition catchMessage (copy : Copy) : Str.t :=
  match copy with
  | AppTsx => "Could not connect to backend."
  | Responsive => "No document found."
  end.

Section Session.

Variable number : Type.

Record DocResult := {
  doc_id : number;
  filename : Str.t;
  score : number;
  text : Str.t
}.

Record State := {
  query : Str.t;
  results : list DocResult;
  loading : bool;
  selectedDoc : option DocResult;
  error : option Str.t
}.

Definition initial : State :=
  {| query := []; results := []; loading := false; selectedDoc := None; error := None |}.

Definition setQuery (q : Str.t) (s : State) : State :=
  {| query := q; results := results s; loading := loading s;
     selectedDoc := selectedDoc s; error := error s |}.

Definition setResults (r : list DocResult) (s : State) : State :=
  {| query := query s; results := r; loading := loading s;
     selectedDoc := selectedDoc s; error := error s |}.

Definition setLoading (b : bool) (s : State) : State :=
  {| query := query s; results := results s; loading := b;
     selectedDoc := selectedDoc s; error := error s |}.

Definition setSelectedDoc (d : option DocResult) (s : State) : State :=
  {| query := query s; results := results s; loading := loading s;
     selectedDoc := d; error := error s |}.

Definition setError (e : option Str.t) (s : State) : State :=
  {| query := query s; results := results s; loading := loading s;
     selectedDoc := selectedDoc s; error := e |}.

(** The request [fetch] sends: a POST of the query to the backend. *)
Record Request := { url : Str.t; body : Str.t }.

(** The parsed body of a response: its [error] and [results] members, each
    possibly missing. *)
Record Data := { data_error : option Str.t; data_results : option (list DocResult) }.

(** What the [await]s yield: the data, or a rejection of [fetch] or of
    [res.json()]. *)
Inductive Response :=
| Resolved (data : Data)
| Rejected.

(** [if (data.error)]: a missing or empty message is falsy. *)
Definition truthy (v : option Str.t) : bool :=
  match v with
  | Some (_ :: _) => true
  | _ => false
  end.

(** [handleSearch] up to the [await]: the new state and the request sent,
    if any. *)
Definition handleSearch (s : State) : State * option Request :=
  match Str.trim (query s) with
  | [] => (setResults [] (setError (Some emptyQueryMessage) s), None)
  | _ =>
      (setSelectedDoc None (setResults [] (setError None (setLoading true s))),
       Some {| url := BACKEND_URL; body := query s |})
  end.

(** [handleSearch] from the [await] on, applied to the state of the moment
    the response arrives.  Reading [length] of a missing [results] throws
    inside the [try], and lands in the [catch] like a rejection. *)
Definition resume (copy : Copy) (r : Response) (s : State) : State :=
  setLoading false
    match r with
    | Resolved data =>
        if truthy (data_error data) then
          setResults [] (setError (data_error data) s)
        else
          match data_results data with
          | None => setError (Some (catchMessage copy)) s
          | Some [] => setResults [] (setError (Some noMatchMessage) s)
          | Some docs => setResults docs s
          end
    | Rejected => setError (Some (catchMessage copy)) s
    end.

(** The session: the state cells and the requests in flight, numbered in
    the order they were sent. *)
Record Session := {
  state : State;
  inFlight : list (nat * Request);
  sent : nat
}.

Definition start : Session :=
  {| state := initial; inFlight := []; sent := 0 |}.

Inductive Event :=
| Type_ (q : Str.t)
| Submit
| Arrive (id : nat) (r : Response)
| Select (d : DocResult)
| Close.

Definition isInFlight (id : nat) (ss : Session) : bool :=
  existsb (fun p => Nat.eqb (fst p) id) (inFlight ss).

(** One event; a response can only arrive for a request in flight. *)
Definition step (copy : Copy) (ss : Session) (e : Event) : option Session :=
  match e with
  | Type_ q =>
      Some {| state := setQuery q (state ss); inFlight := inFlight ss; sent := sent ss |}
  | Submit =>
      match handleSearch (state ss) with
      | (s', None) => Some {| state := s'; inFlight := inFlight ss; sent := sent ss |}
      | (s', Some req) =>
          Some {| state := s'; inFlight := inFlight ss ++ [(sent ss, req)];
                  sent := S (sent ss) |}
      end
  | Arrive id r =>
      if isInFlight id ss then
        Some {| state := resume copy r (state ss);
                inFlight := filter (fun p => negb (Nat.eqb (fst p) id)) (inFlight ss);
                sent := sent ss |}
      else None
  | Select d =>
      Some {| state := setSelectedDoc (Some d) (state ss);
              inFlight := inFlight ss; sent := sent ss |}
  | Close =>
      Some {| state := setSelectedDoc None (state ss);
              inFlight := inFlight ss; sent := sent ss |}
  end.

Fixpoint run (copy : Copy) (ss : Session) (trace : list Event) : option Session :=
  match trace with
  | [] => Some ss
  | e :: trace' =>
      ss' <- step copy ss e ;;
      run copy ss' trace'
  end.

(** A trace in which [handleSearch] is never called while an earlier call
    awaits its response. *)
Fixpoint oneAtATime (copy : Copy) (ss : Session) (trace : list Event) : bool :=
  match trace with
  | [] => true
  | e :: trace' =>
      match e with
      | Submit => match inFlight ss with [] => true | _ => false end
      | _ => true
      end &&
      match step copy ss e with
      | Some ss' => oneAtATime copy ss' trace'
      | None => true
      end
  end.

End Session.

Arguments initial {number}.
Arguments start {number}.
Arguments Rejected {number}.
Arguments Type_ {number} q.
Arguments Submit {number}.
Arguments Close {number}.

(** A response with documents, and one with an error message. *)
Definition found {number : Type} (docs : list (DocResult number)) : Response number :=
  Resolved {| data_error := None; data_results := Some docs |}.

Definition failed {number : Type} (message : Str.t) : Response number :=
  Resolved {| data_error := Some message; data_results := None |}.

End App.

(** ** Reference definitions

    What the statements below compare the code with: the pattern a term list
    should compile to, the occurrences of a term as a whole word, and the
    words of a query. *)

Module Reference.

Import RegExp.

(** The escaped form of a term: a backslash before every syntax character. *)
Definition escapeUnit (c : ascii) : Str.t :=
  if isSyntaxCharacter c then ["\"%char; c] else [c].

Definition escape (t : Str.t) : Str.t := flat_map escapeUnit t.

(** The RegExp of the literal [/[.*+?^${}()|[\]\\]/g]: one class with the
    fourteen syntax characters. *)
Definition escapeRegExp : RegExp.t :=
  {| pattern :=
       Seq (Class false
              (map CChar ["."; "*"; "+"; "?"; "^"; "$"; "{"; "}"; "("; ")";
                          "|"; "["; "]"; "\"]%char))
           Empty;
     groupCount := 0; global := true; ignoreCase := false; multiline := false |}.

(** A term as a pattern of its own code units, each one a literal. *)
Definition literal (t : Str.t) : Node :=
  fold_right (fun c r => Seq (Char c) r) Empty t.

Fixpoint alternation (rs : list Node) : Node :=
  match rs with
  | [] => Empty
  | [r] => r
  | r :: rs' => Alt r (alternation rs')
  end.

(** The combined matcher: a word boundary, one capturing group with the
    terms as literal alternatives in the order of the list, a word
    boundary. *)
Definition combined (terms : list Str.t) : Node :=
  Seq (WordBoundary false)
    (Seq (Group 1 (alternation (map literal terms)))
       (Seq (WordBoundary false) Empty)).

Definition combinedRegExp (terms : list Str.t) : RegExp.t :=
  {| pattern := combined terms; groupCount := 1;
     global := true; ignoreCase := true; multiline := false |}.

(** [t] read code unit by code unit at the head of [s], up to case. *)
Fixpoint occursAtHead (t s : Str.t) : bool :=
  match t, s with
  | [], _ => true
  | c :: t', ch :: s' =>
      (CodeUnit.Canonicalize true c =? CodeUnit.Canonicalize true ch) && occursAtHead t' s'
  | _ :: _, [] => false
  end.

(** [t] occurs in [text] at [q] and ends at a word boundary. *)
Definition occursBounded (text : Str.t) (q : nat) (t : Str.t) : bool :=
  occursAtHead t (skipn q text) && atWordBoundary text (q + length t).

(** The term the combined matcher takes at [q]: the first one of the list
    that occurs there between two word boundaries. *)
Definition termAt (text : Str.t) (terms : list Str.t) (q : nat) : option Str.t :=
  if atWordBoundary text q then find (occursBounded text q) terms else None.

(** An index the scan of [split] passes over: the pattern does not match
    there, or its match ends at [p], where the last match taken ended. *)
Definition Skipped (R : RegExp.t) (subject : Str.t) (p q : nat) : Prop :=
  match matchAt R subject q with
  | None => True
  | Some z => Nat.min (endIndex z) (length subject) = p
  end.

(** The shape of what [split] returns from [p] on.  Either every index from
    [p] on is passed over, and the rest of the text is the last fragment; or
    [q] is the first index that is not, the fragment runs up to [q], the
    captures of the match at [q] follow, and the scan goes on from the end of
    that match. *)
Inductive Tiles (R : RegExp.t) (subject : Str.t) : nat -> list StringProto.Piece -> Prop :=
| tiles_end (p : nat) :
    p <= length subject ->
    (forall q, p <= q < length subject -> Skipped R subject p q) ->
    Tiles R subject p [StringProto.Fragment p (length subject)]
| tiles_match (p q : nat) (z : MatchState) (rest : list StringProto.Piece) :
    p <= q -> q < length subject ->
    (forall q', p <= q' < q -> Skipped R subject p q') ->
    matchAt R subject q = Some z ->
    Nat.min (endIndex z) (length subject) <> p ->
    Tiles R subject (Nat.min (endIndex z) (length subject)) rest ->
    Tiles R subject p
      (StringProto.Fragment p q :: map StringProto.Capture (captures z) ++ rest).

(** The text of a piece, and the element it is rendered as. *)
Definition textOf (subject : Str.t) (p : StringProto.Piece) : Str.t :=
  match StringProto.pieceValue subject p with
  | Some s => s
  | None => []
  end.

Definition spanOf (terms : list Str.t) (subject : Str.t) (p : StringProto.Piece)
  : App.Span :=
  let s := textOf subject p in
  (if App.isTerm terms s then App.matched else App.plain, s).

Definition isCapture (p : StringProto.Piece) : bool :=
  match p with
  | StringProto.Capture _ => true
  | StringProto.Fragment _ _ => false
  end.

(** The state in which the combined matcher leaves a match of [t] at [q]:
    the end of the occurrence, and the occurrence as the one capture. *)
Definition matchOf (q : nat) (t : Str.t) : MatchState :=
  {| endIndex := q + length t; captures := [Some (q, q + length t)] |}.

(** A term that starts and ends with a word character. *)
Definition headWord (s : Str.t) : bool :=
  match s with
  | c :: _ => CodeUnit.isWordChar c
  | [] => false
  end.

Definition wordy (t : Str.t) : bool := headWord t && headWord (rev t).

(** The RegExp of the literal [/\s+/]. *)
Definition spaceRegExp : RegExp.t :=
  {| pattern := Seq (Quant 1 None true (Class false [CEscape space false])) Empty;
     groupCount := 0; global := false; ignoreCase := false; multiline := false |}.

(** The length of the run of white space at the head of [s]. *)
Fixpoint spaceRun (s : Str.t) : nat :=
  match s with
  | c :: s' => if CodeUnit.isWhiteSpace c then S (spaceRun s') else 0
  | [] => 0
  end.

(** The words of a query: its maximal runs of code units that are not white
    space, in order.  [acc] holds the current run, reversed. *)
Fixpoint wordsFrom (acc : Str.t) (s : Str.t) : list Str.t :=
  match s with
  | [] =>
      match acc with
      | [] => []
      | _ => [rev acc]
      end
  | c :: s' =>
      if CodeUnit.isWhiteSpace c then
        match acc with
        | [] => wordsFrom [] s'
        | _ => rev acc :: wordsFrom [] s'
        end
      else wordsFrom (c :: acc) s'
  end.

Definition words (query : Str.t) : list Str.t := wordsFrom [] query.

(** *** Notions used in the proofs *)

(** The state [n] code units further on. *)
Definition advance (x : MatchState) (n : nat) : MatchState :=
  {| endIndex := endIndex x + n; captures := captures x |}.

(** The first alternative, in the order of the list, that occurs at the
    position and whose continuation succeeds. *)
Fixpoint firstAccepted (input : Str.t) (x : MatchState) (c : Continuation)
    (ts : list Str.t) : option MatchState :=
  match ts with
  | [] => None
  | t :: ts' =>
      match (if occursAtHead t (skipn (endIndex x) input)
             then c (advance x (length t)) else None) with
      | Some z => Some z
      | None => firstAccepted input x c ts'
      end
  end.

(** Input at which an alternative ends, and input that starts no
    quantifier. *)
Definition stops (s : Str.t) : Prop :=
  s = [] \/ (exists r, s = "|"%char :: r) \/ (exists r, s = ")"%char :: r).

Definition quiet (s : Str.t) : Prop := parseQuantifierPrefix s = NoQuantifier.

(** The state after one code unit was matched at [i], and after a match
    that ends at [e], without captures. *)
Definition unitState (i : nat) : MatchState := {| endIndex := S i; captures := [] |}.

Definition stateAt (e : nat) : MatchState := {| endIndex := e; captures := [] |}.

(** Text without syntax characters. *)
Definition plainText (s : Str.t) : Prop :=
  Forall (fun c => isSyntaxCharacter c = false) s.

(** [y] is reached from [x]: not before it, and inside the input if [x]
    was.  A matcher advances when it calls its continuation on such states
    only. *)
Definition After (input : Str.t) (x y : MatchState) : Prop :=
  endIndex x <= endIndex y /\
  (endIndex x <= length input -> endIndex y <= length input).

Definition Advances (input : Str.t) (m : Matcher) : Prop :=
  forall x c z, m x c = Some z -> exists y, After input x y /\ c y = Some z.

Definition isSpace (c : ascii) : Prop := CodeUnit.isWhiteSpace c = true.

Definition notSpace (c : ascii) : Prop := CodeUnit.isWhiteSpace c = false.

(** The matcher of [\s] on [text]. *)
Definition spaceMatcher (text : Str.t) : Matcher :=
  matchNode text false false (Class false [CEscape space false]).

(** A fragment as a list of words: itself, unless it is empty. *)
Definition wordOf (w : Str.t) : list Str.t :=
  match w with
  | [] => []
  | _ => [w]
  end.

(** What holds between two calls of [handleSearch] that do not overlap:
    with nothing in flight an error excludes results; with one request in
    flight there is neither. *)
Definition Settled {number : Type} (ss : App.Session number) : Prop :=
  match App.inFlight ss with
  | [] => App.error (App.state ss) = None \/ App.results (App.state ss) = []
  | [_] => App.error (App.state ss) = None /\ App.results (App.state ss) = []
  | _ => False
  end.

End Reference.

(** ** Sample data *)

Module Sample.

(** Two documents, for the traces below. *)
Definition docA : App.DocResult nat :=
  {| App.doc_id := 1; App.filename := Str.ofString "a.txt"; App.score := 2;
     App.text := Str.ofString "alpha" |}.

Definition docB : App.DocResult nat :=
  {| App.doc_id := 2; App.filename := Str.ofString "b.txt"; App.score := 1;
     App.text := Str.ofString "beta" |}.

(** The session after the query [alpha] was submitted and its request
    failed. *)
Definition afterFailure : App.Session nat :=
  {| App.state := {| App.query := Str.ofString "alpha"; App.results := [];
                     App.loading := false; App.selectedDoc := None;
                     App.error := Some (App.catchMessage App.AppTsx) |};
     App.inFlight := []; App.sent := 1 |}.

End Sample.

(** ** What the component renders and the events it wires *)

Module Ui.

Import App.

Local Open Scope string_scope.
Local Open Scope list_scope.

Section Ui.

Variable number : Type.

(** [{loading && <CircularProgress/>}] *)
Definition showsSpinner (s : State number) : bool := loading s.

(** [{error && <Typography>{error}</Typography>}]: an error that is null
    or the empty string shows nothing. *)
Definition shownError (s : State number) : option Str.t :=
  if truthy (error s) then error s else None.

(** [{!loading && results.length > 0 && <List>...}] *)
Definition shownResults (s : State number) : list (DocResult number) :=
  if negb (loading s) && negb (length (results s) =? 0)%nat then results s else [].

(** [endAdornment: query && <IconButton .../>] *)
Definition clearShown (s : State number) : bool :=
  match query s with
  | [] => false
  | _ => true
  end.

(** [open={!!selectedDoc}] *)
Definition dialogOpen (s : State number) : bool :=
  match selectedDoc s with
  | Some _ => true
  | None => false
  end.

(** The body of the dialog:
    [selectedDoc && highlightText(selectedDoc.text, query.split(/\s+/).filter(Boolean))].
    Without a selected document nothing is rendered. *)
Definition dialogContent (s : State number) : option (option Rendered) :=
  match selectedDoc s with
  | None => Some None
  | Some d =>
      terms <- tokenize (query s) ;;
      r <- highlightText (text d) terms ;;
      Some (Some r)
  end.

(** What the user and the network can do to the component. *)
Inductive Action :=
| Change (q : Str.t)
| ClickClear
| Key (key : Str.t)
| ClickSearch
| ClickResult (i : nat)
| CloseDialog
| Receive (id : nat) (r : Response number).

(** One action.  [Change] is the [onChange] of the text field; the clear
    button exists only while the query is not empty; [Key] is
    [handleKeyDown], which calls [handleSearch] on Enter and on nothing else;
    the search button does nothing while it is disabled; a result can be
    clicked only in the list that is shown; the dialog can be closed only
    while it is open.  [None]: the control is not there. *)
Definition act (copy : Copy) (ss : Session number) (a : Action)
  : option (Session number) :=
  match a with
  | Change q => step copy ss (Type_ q)
  | ClickClear =>
      if clearShown (state ss) then step copy ss (Type_ []) else None
  | Key key =>
      if Str.eqb key "Enter" then step copy ss Submit else Some ss
  | ClickSearch =>
      if loading (state ss) then Some ss else step copy ss Submit
  | ClickResult i =>
      match nth_error (shownResults (state ss)) i with
      | Some d => step copy ss (Select d)
      | None => None
      end
  | CloseDialog =>
      if dialogOpen (state ss) then step copy ss Close else None
  | Receive id r => step copy ss (Arrive id r)
  end.

Fixpoint perform (copy : Copy) (ss : Session number) (actions : list Action)
  : option (Session number) :=
  match actions with
  | [] => Some ss
  | a :: actions' =>
      ss' <- act copy ss a ;;
      perform copy ss' actions'
  end.

(** Actions in which Enter is pressed only while nothing is loading. *)
Fixpoint enterWhenIdle (copy : Copy) (ss : Session number) (actions : list Action)
  : bool :=
  match actions with
  | [] => true
  | a :: actions' =>
      match a with
      | Key key => negb (Str.eqb key "Enter" && loading (state ss))
      | _ => true
      end &&
      match act copy ss a with
      | Some ss' => enterWhenIdle copy ss' actions'
      | None => true
      end
  end.

(** What holds while calls of [handleSearch] do not overlap: the loading
    flag is set exactly while the one request is in flight, and then there
    is neither error nor results; otherwise an error excludes results. *)
Definition Calm (ss : Session number) : Prop :=
  match inFlight ss with
  | [] => loading (state ss) = false /\
          (error (state ss) = None \/ results (state ss) = [])
  | [_] => loading (state ss) = true /\
           error (state ss) = None /\ results (state ss) = []
  | _ => False
  end.

(** An action that carries the documents [docs]: a response whose data has
    them as its results. *)
Definition carried (docs : list (DocResult number)) (a : Action) : Prop :=
  exists id data, a = Receive id (Resolved data) /\ data_results data = Some docs.

(** A document some response of [actions] carried. *)
Definition known (actions : list Action) (d : DocResult number) : Prop :=
  exists a docs, In a actions /\ carried docs a /\ In d docs.

(** Every document the state holds, in its results or as the selected one,
    is known from [actions]. *)
Definition Sourced (actions : list Action) (s : State number) : Prop :=
  (forall d, In d (results s) -> known actions d) /\
  (forall d, selectedDoc s = Some d -> known actions d).

End Ui.

Arguments ClickClear {number}.
Arguments ClickSearch {number}.
Arguments CloseDialog {number}.
Arguments Key {number} key.
Arguments Change {number} q.
Arguments ClickResult {number} i.

End Ui.

(** ** More sample data *)

Module Demo.

(** The session after the query [alpha] was submitted and answered with one
    document, and the state once that document is opened. *)
Definition afterResults : App.Session nat :=
  {| App.state := {| App.query := Str.ofString "alpha"; App.results := [Sample.docA];
                     App.loading := false; App.selectedDoc := None;
                     App.error := None |};
     App.inFlight := []; App.sent := 1 |}.

Definition viewing : App.State nat :=
  {| App.query := Str.ofString "alpha"; App.results := [Sample.docA];
     App.loading := false; App.selectedDoc := Some Sample.docA;
     App.error := None |}.

End Demo.

(** ** Letters and sessions for the properties below *)

Module Letters.

(** A code unit with the letters A-Z replaced by a-z, and a string with
    every code unit so replaced. *)
Definition lowerLetter (c : ascii) : ascii :=
  if CodeUnit.inRange 65 90 (CodeUnit.code c)
  then ascii_of_nat (CodeUnit.code c + 32) else c.

Definition lowerLetters (s : Str.t) : Str.t := map lowerLetter s.

End Letters.

Module Order.

(** What holds in a session whose calls of [handleSearch] do not overlap: a
    request in flight is the one sent last, and the state is as the call left
    it, without error and without results. *)
Definition Latest {number : Type} (ss : App.Session number) : Prop :=
  match App.inFlight ss with
  | [] => True
  | [(id, _)] =>
      S id = App.sent ss /\
      App.error (App.state ss) = None /\ App.results (App.state ss) = []
  | _ => False
  end.

(** The session after the query [alpha] was answered with one document and
    then the query [beta] with another. *)
Definition afterBeta : App.Session nat :=
  {| App.state := {| App.query := Str.ofString "beta"; App.results := [Sample.docB];
                     App.loading := false; App.selectedDoc := None;
                     App.error := None |};
     App.inFlight := []; App.sent := 2 |}.

(** The state after the local validation refused an empty query. *)
Definition refused : App.State nat :=
  {| App.query := []; App.results := []; App.loading := false;
     App.selectedDoc := None; App.error := Some App.emptyQueryMessage |}.

End Order.

(** * Properties *)

(** ** Code units *)

Module CodeUnitFacts.

Import CodeUnit.

Lemma allUnits_complete (c : ascii) : In c allUnits.
Proof.
  unfold allUnits. rewrite <- (ascii_nat_embedding c).
  apply in_map, in_seq. pose proof (nat_ascii_bounded c). lia.
Qed.

(** A property of code units that holds on the whole table holds of every
    code unit. *)
Lemma forall_units (P : ascii -> bool) :
  forallb P allUnits = true -> forall c, P c = true.
Proof.
  intros H c. rewrite forallb_forall in H. apply H, allUnits_complete.
Qed.

Lemma forall_units2 (P : ascii -> ascii -> bool) :
  forallb (fun a => forallb (P a) allUnits) allUnits = true ->
  forall a b, P a b = true.
Proof.
  intros H a b.
  apply (forall_units (P a)). apply (forall_units _ H).
Qed.

(** On the code units up to U+00FF the engine's comparison up to case and
    the comparison of lower-cased code units agree.  (Beyond them they do
    not: the micro sign U+00B5 and the Greek mu U+03BC have one upper case
    and two lower cases.) *)
Lemma canonical_iff_lower (a b : ascii) :
  Canonicalize true a = Canonicalize true b <-> toLowerCase a = toLowerCase b.
Proof.
  assert (H : (Canonicalize true a =? Canonicalize true b)
              = Ascii.eqb (toLowerCase a) (toLowerCase b)).
  { apply eqb_prop.
    apply (forall_units2
             (fun a b => Bool.eqb (Canonicalize true a =? Canonicalize true b)
                                  (Ascii.eqb (toLowerCase a) (toLowerCase b)))).
    vm_compute. reflexivity. }
  rewrite <- Nat.eqb_eq, H. apply Ascii.eqb_eq.
Qed.

Lemma code_injective (a b : ascii) : code a = code b -> a = b.
Proof.
  unfold code. intros H.
  rewrite <- (ascii_nat_embedding a), <- (ascii_nat_embedding b), H. reflexivity.
Qed.

Lemma isWordChar_lower (a b : ascii) :
  toLowerCase a = toLowerCase b -> isWordChar a = isWordChar b.
Proof.
  intros H.
  assert (E : (negb (Ascii.eqb (toLowerCase a) (toLowerCase b))
               || Bool.eqb (isWordChar a) (isWordChar b)) = true).
  { apply (forall_units2
             (fun a b => negb (Ascii.eqb (toLowerCase a) (toLowerCase b))
                         || Bool.eqb (isWordChar a) (isWordChar b))).
    vm_compute. reflexivity. }
  rewrite H, Ascii.eqb_refl in E. simpl in E. apply eqb_prop, E.
Qed.

End CodeUnitFacts.

(** ** Lists and strings *)

Module StrFacts.

Lemma skipn_nth_error_Some {A} (l : list A) (n : nat) (a : A) :
  nth_error l n = Some a -> skipn n l = a :: skipn (S n) l.
Proof.
  revert l; induction n as [|n IH]; intros [|b l] H; simpl in *; try discriminate.
  - injection H as ->. reflexivity.
  - rewrite (IH l H). destruct l; reflexivity.
Qed.

Lemma skipn_nth_error_None {A} (l : list A) (n : nat) :
  nth_error l n = None -> skipn n l = [].
Proof.
  intros H. apply skipn_all2. apply nth_error_None, H.
Qed.

Lemma firstn_plus {A} (m n : nat) (l : list A) :
  firstn (m + n) l = firstn m l ++ firstn n (skipn m l).
Proof.
  revert l; induction m as [|m IH]; intros [|a l]; simpl;
    try rewrite firstn_nil; try reflexivity.
  f_equal. apply IH.
Qed.

Lemma substring_split (s : Str.t) (a b c : nat) :
  a <= b -> b <= c ->
  Str.substring s a c = Str.substring s a b ++ Str.substring s b c.
Proof.
  intros Hab Hbc. unfold Str.substring.
  replace (c - a) with ((b - a) + (c - b)) by lia.
  rewrite firstn_plus. f_equal.
  rewrite skipn_skipn. replace (b - a + a) with b by lia. reflexivity.
Qed.

Lemma substring_empty (s : Str.t) (a : nat) : Str.substring s a a = [].
Proof. unfold Str.substring. rewrite Nat.sub_diag. reflexivity. Qed.

Lemma substring_all (s : Str.t) : Str.substring s 0 (length s) = s.
Proof. unfold Str.substring. rewrite Nat.sub_0_r. simpl. apply firstn_all. Qed.

Lemma substring_to_end (s : Str.t) (a : nat) :
  Str.substring s a (length s) = skipn a s.
Proof.
  unfold Str.substring. apply firstn_all2. rewrite length_skipn. lia.
Qed.

Lemma substring_length (s : Str.t) (a b : nat) :
  a <= b -> b <= length s -> length (Str.substring s a b) = b - a.
Proof.
  intros Hab Hb. unfold Str.substring.
  rewrite length_firstn, length_skipn. lia.
Qed.

Lemma eqb_eq (a b : Str.t) : Str.eqb a b = true <-> a = b.
Proof.
  unfold Str.eqb. destruct (list_eq_dec ascii_dec a b); split; congruence.
Qed.

End StrFacts.

(** ** The matcher *)

Module RegExpFacts.

Import RegExp Reference.

Lemma setHas_singleton (ic : bool) (ch c : ascii) :
  setHas ic (Ascii.eqb ch) c = (canon ic ch =? canon ic c).
Proof.
  unfold setHas. destruct (canon ic ch =? canon ic c) eqn:E.
  - apply existsb_exists. exists ch. split.
    + apply CodeUnitFacts.allUnits_complete.
    + rewrite Ascii.eqb_refl. exact E.
  - apply not_true_is_false. intros H.
    apply existsb_exists in H. destruct H as [a [_ H]].
    apply andb_true_iff in H. destruct H as [Ha Hc].
    apply Ascii.eqb_eq in Ha. subst a. congruence.
Qed.

(** Without the [i] flag a set is tested on the code unit itself. *)
Lemma setHas_exact (A : ascii -> bool) (c : ascii) :
  setHas false A c = A c.
Proof.
  unfold setHas, canon, CodeUnit.Canonicalize. destruct (A c) eqn:E.
  - apply existsb_exists. exists c. split.
    + apply CodeUnitFacts.allUnits_complete.
    + rewrite E, Nat.eqb_refl. reflexivity.
  - apply not_true_is_false. intros H.
    apply existsb_exists in H. destruct H as [a [_ H]].
    apply andb_true_iff in H. destruct H as [Ha Hc].
    apply Nat.eqb_eq, CodeUnitFacts.code_injective in Hc. subst a. congruence.
Qed.

Section Literal.

Variable input : Str.t.
Variable multiline : bool.

(** A literal is matched code unit by code unit, up to case. *)
Lemma matchNode_literal (t : Str.t) (x : MatchState) (c : Continuation) :
  matchNode input true multiline (literal t) x c =
  if occursAtHead t (skipn (endIndex x) input) then c (advance x (length t)) else None.
Proof.
  revert x. induction t as [|a t IH]; intros x.
  - simpl. unfold advance. rewrite Nat.add_0_r. destruct x; reflexivity.
  - simpl. unfold characterSetMatcher.
    destruct (nth_error input (endIndex x)) as [ch|] eqn:E.
    + rewrite (StrFacts.skipn_nth_error_Some _ _ E).
      rewrite setHas_singleton. unfold canon.
      destruct (CodeUnit.Canonicalize true a =? CodeUnit.Canonicalize true ch); simpl.
      * rewrite IH. unfold advance. cbn [endIndex captures length].
        replace (S (endIndex x) + length t) with (endIndex x + S (length t)) by lia.
        reflexivity.
      * reflexivity.
    + rewrite (StrFacts.skipn_nth_error_None _ _ E). reflexivity.
Qed.

Lemma matchNode_alternation (ts : list Str.t) (x : MatchState) (c : Continuation) :
  ts <> [] ->
  matchNode input true multiline (alternation (map literal ts)) x c =
  firstAccepted input x c ts.
Proof.
  induction ts as [|t ts IH]; intros Hne; [congruence|].
  destruct ts as [|t' ts].
  - simpl. rewrite matchNode_literal.
    destruct (if occursAtHead t (skipn (endIndex x) input)
              then c (advance x (length t)) else None); reflexivity.
  - change (alternation (map literal (t :: t' :: ts)))
      with (Alt (literal t) (alternation (map literal (t' :: ts)))).
    cbn [matchNode]. rewrite matchNode_literal, IH by congruence.
    reflexivity.
Qed.

End Literal.

(** The combined matcher at one position: the first term of the list that
    occurs there as a whole word, with the occurrence as its capture. *)
Lemma matchAt_combined (terms : list Str.t) (text : Str.t) (q : nat) :
  terms <> [] ->
  matchAt (combinedRegExp terms) text q =
  option_map (fun t => {| endIndex := q + length t;
                          captures := [Some (q, q + length t)] |})
             (termAt text terms q).
Proof.
  intros Hne. unfold matchAt, combinedRegExp, combined, termAt. simpl.
  unfold assertion at 1. simpl. rewrite xorb_false_r.
  destruct (atWordBoundary text q); [|reflexivity].
  rewrite matchNode_alternation by exact Hne.
  clear Hne. induction terms as [|t terms IH]; [reflexivity|].
  simpl. unfold occursBounded at 1.
  destruct (occursAtHead t (skipn q text)); simpl; [|exact IH].
  unfold assertion. simpl. rewrite xorb_false_r.
  destruct (atWordBoundary text (q + length t)); simpl; [reflexivity|exact IH].
Qed.

End RegExpFacts.

(** ** The parser on escaped terms *)

Module ParserFacts.

Import RegExp Reference.

Local Ltac each_unit c := destruct c as [[] [] [] [] [] [] [] []].

Local Ltac eval_digits :=
  repeat match goal with
  | |- context [CodeUnit.isDigit ?c] =>
      let b := eval vm_compute in (CodeUnit.isDigit c) in
      change (CodeUnit.isDigit c) with b
  end.

Lemma stops_quiet (s : Str.t) : stops s -> quiet s.
Proof. intros [->|[[r ->]|[r ->]]]; reflexivity. Qed.

Lemma quiet_escapeUnit (c : ascii) (tail : Str.t) : quiet (escapeUnit c ++ tail).
Proof. unfold quiet. each_unit c; reflexivity. Qed.

Lemma quiet_escape (t rest : Str.t) : quiet rest -> quiet (escape t ++ rest).
Proof.
  destruct t as [|c t]; intros H; [exact H|].
  unfold escape. simpl. rewrite <- app_assoc. apply quiet_escapeUnit.
Qed.

Lemma quantified_quiet (a : Node) (s : Str.t) :
  quiet s -> quantified a s = Some (a, s).
Proof. unfold quiet, quantified. intros ->. reflexivity. Qed.

(** An escaped code unit is read as the literal of that code unit. *)
Lemma parseTerm_escapeUnit (c : ascii) (tail : Str.t) (fuel n : nat) :
  quiet tail ->
  parseTerm (S fuel) n (escapeUnit c ++ tail) = Some (Char c, n, tail).
Proof.
  intros H.
  each_unit c; cbn -[quantified]; eval_digits; cbn -[quantified];
    rewrite (quantified_quiet _ H); reflexivity.
Qed.

Lemma parseAlternative_escapeUnit (c : ascii) (tail : Str.t) (fuel n : nat) :
  parseAlternative (S fuel) n (escapeUnit c ++ tail) =
  match parseTerm fuel n (escapeUnit c ++ tail) with
  | Some (t, n1, rest) =>
      match parseAlternative fuel n1 rest with
      | Some (a, n2, rest') => Some (Seq t a, n2, rest')
      | None => None
      end
  | None => None
  end.
Proof. each_unit c; reflexivity. Qed.

Lemma parseAlternative_stops (s : Str.t) (fuel n : nat) :
  stops s -> parseAlternative (S fuel) n s = Some (Empty, n, s).
Proof. intros [->|[[r ->]|[r ->]]]; reflexivity. Qed.

(** An escaped term is read as the literal of the term. *)
Lemma parseAlternative_escape (t rest : Str.t) (fuel n : nat) :
  stops rest -> length t + 1 <= fuel ->
  parseAlternative fuel n (escape t ++ rest) = Some (literal t, n, rest).
Proof.
  intros Hrest. revert fuel. induction t as [|c t IH]; intros fuel Hfuel.
  - destruct fuel as [|fuel]; [simpl in Hfuel; lia|].
    apply parseAlternative_stops, Hrest.
  - destruct fuel as [|[|fuel]]; simpl in Hfuel; try lia.
    unfold escape. cbn [flat_map]. rewrite <- app_assoc.
    rewrite parseAlternative_escapeUnit.
    rewrite parseTerm_escapeUnit by (apply quiet_escape, stops_quiet, Hrest).
    fold (escape t). rewrite IH by lia. reflexivity.
Qed.

Lemma escape_length (t : Str.t) : length t <= length (escape t).
Proof.
  induction t as [|c t IH]; [simpl; lia|].
  unfold escape in *. cbn [flat_map]. rewrite length_app.
  unfold escapeUnit at 1. destruct (isSyntaxCharacter c); cbn [length]; lia.
Qed.

Lemma join_cons2 (sep p q : Str.t) (rest : list Str.t) :
  Str.join sep (p :: q :: rest) = p ++ sep ++ Str.join sep (q :: rest).
Proof. reflexivity. Qed.

(** The escaped terms joined by bars are read as the alternation of the
    literals. *)
Lemma parseDisjunction_join (ts : list Str.t) (rest : Str.t) (fuel n : nat) :
  ts <> [] ->
  length (Str.join ["|"%char] (map escape ts)) + 2 <= fuel ->
  parseDisjunction fuel n (Str.join ["|"%char] (map escape ts) ++ ")"%char :: rest) =
  Some (alternation (map literal ts), n, ")"%char :: rest).
Proof.
  revert fuel. induction ts as [|t ts IH]; intros fuel Hne Hfuel; [congruence|].
  destruct fuel as [|fuel]; [lia|].
  destruct ts as [|t' ts].
  - cbn [map Str.join] in *. cbn [parseDisjunction].
    rewrite parseAlternative_escape; [reflexivity| |].
    + right; right; eexists; reflexivity.
    + pose proof (escape_length t). lia.
  - cbn [map] in *. rewrite join_cons2 in *.
    rewrite !length_app in Hfuel. cbn [length] in Hfuel.
    rewrite <- !app_assoc. cbn [parseDisjunction].
    rewrite parseAlternative_escape.
    + cbn [app]. rewrite (IH fuel); [reflexivity|congruence|].
      cbn [map]. lia.
    + right; left; eexists; reflexivity.
    + pose proof (escape_length t). lia.
Qed.

(** An opening parenthesis not followed by a question mark opens a
    capturing group. *)
Lemma parseTerm_group (tail : Str.t) (fuel n : nat) :
  (forall r, tail <> "?"%char :: r) ->
  parseTerm (S fuel) n ("("%char :: tail) =
  match parseDisjunction fuel (S n) tail with
  | Some (d, n1, ")"%char :: rest') =>
      option_map (fun q => (fst q, n1, snd q)) (quantified (Group (S n) d) rest')
  | _ => None
  end.
Proof.
  intros H. destruct tail as [|c tail]; [reflexivity|].
  each_unit c; try reflexivity. exfalso. eapply H. reflexivity.
Qed.

Lemma escapeUnit_head (c : ascii) (tail r : Str.t) :
  escapeUnit c ++ tail <> "?"%char :: r.
Proof. each_unit c; discriminate. Qed.

Lemma join_head (ts : list Str.t) (rest r : Str.t) :
  Str.join ["|"%char] (map escape ts) ++ ")"%char :: rest <> "?"%char :: r.
Proof.
  destruct ts as [|t ts]; [discriminate|].
  assert (H : forall tail, escape t ++ tail <> "?"%char :: r
                           \/ escape t = []).
  { intros tail. destruct t as [|c t]; [right; reflexivity|left].
    unfold escape. cbn [flat_map]. rewrite <- app_assoc. apply escapeUnit_head. }
  destruct ts as [|t' ts].
  - cbn [map Str.join]. destruct (H (")"%char :: rest)) as [H1|H1]; [exact H1|].
    rewrite H1. discriminate.
  - cbn [map]. rewrite join_cons2, <- !app_assoc.
    destruct (H (["|"%char] ++ Str.join ["|"%char] (map escape (t' :: ts)) ++ ")"%char :: rest))
      as [H1|H1]; [exact H1|].
    rewrite H1. discriminate.
Qed.

Lemma parseAlternative_cons (c : ascii) (rest : Str.t) (fuel n : nat) :
  c <> "|"%char -> c <> ")"%char ->
  parseAlternative (S fuel) n (c :: rest) =
  match parseTerm fuel n (c :: rest) with
  | Some (t, n1, rest1) =>
      match parseAlternative fuel n1 rest1 with
      | Some (a, n2, rest') => Some (Seq t a, n2, rest')
      | None => None
      end
  | None => None
  end.
Proof. intros H1 H2. each_unit c; try reflexivity; congruence. Qed.

Lemma parseTerm_boundary (rest : Str.t) (fuel n : nat) :
  parseTerm (S fuel) n ("\"%char :: "b"%char :: rest) = Some (WordBoundary false, n, rest).
Proof. reflexivity. Qed.

Lemma parseDisjunction_single (fuel n : nat) (s : Str.t) (a : Node) (n1 : nat) :
  parseAlternative fuel n s = Some (a, n1, []) ->
  parseDisjunction (S fuel) n s = Some (a, n1, []).
Proof. intros H. cbn [parseDisjunction]. rewrite H. reflexivity. Qed.

Lemma parseAlternative_framed (ts : list Str.t) (fuel : nat) :
  ts <> [] ->
  length (Str.join ["|"%char] (map escape ts)) + 2 <= fuel ->
  parseAlternative (S (S (S (S (S fuel))))) 0
    ("\"%char :: "b"%char :: "("%char ::
       (Str.join ["|"%char] (map escape ts) ++ [")"%char; "\"%char; "b"%char])) =
  Some (combined ts, 1, []).
Proof.
  intros Hne Hfuel.
  rewrite parseAlternative_cons by discriminate.
  rewrite parseTerm_boundary.
  rewrite parseAlternative_cons by discriminate.
  rewrite parseTerm_group by (intros r; apply join_head).
  rewrite parseDisjunction_join by (try exact Hne; lia).
  rewrite quantified_quiet by reflexivity.
  cbn [option_map fst snd].
  rewrite parseAlternative_cons by discriminate.
  rewrite parseTerm_boundary.
  rewrite parseAlternative_stops by (left; reflexivity).
  reflexivity.
Qed.

(** The source [\b(] ... [)\b] around the escaped terms is read as the
    combined matcher, with one capturing group. *)
Lemma parsePattern_combined (ts : list Str.t) :
  ts <> [] ->
  parsePattern (["\"%char; "b"%char; "("%char] ++ Str.join ["|"%char] (map escape ts)
                ++ [")"%char; "\"%char; "b"%char]) =
  Some (combined ts, 1).
Proof.
  intros Hne. unfold parsePattern.
  remember (Str.join ["|"%char] (map escape ts)) as J eqn:EJ.
  assert (F : exists fuel,
             3 * length (["\"%char; "b"%char; "("%char] ++ J ++ [")"%char; "\"%char; "b"%char]) + 3
             = S (S (S (S (S (S fuel))))) /\ length J + 2 <= fuel).
  { exists (3 * length J + 15). rewrite !length_app. cbn [length]. lia. }
  destruct F as [fuel [-> Hfuel]].
  rewrite (@parseDisjunction_single _ _ _ (combined ts) 1); [reflexivity|].
  subst J. apply parseAlternative_framed; assumption.
Qed.

End ParserFacts.

(** ** Escaping a term *)

Module EscapeFacts.

Import RegExp Reference.

Local Ltac each_unit c := destruct c as [[] [] [] [] [] [] [] []].

Lemma create_escape :
  RegExp.create App.escapeSource (Str.ofString "g") = Some escapeRegExp.
Proof. vm_compute. reflexivity. Qed.

Lemma escapeClass_syntax (c : ascii) :
  classHas (map CChar ["."; "*"; "+"; "?"; "^"; "$"; "{"; "}"; "("; ")";
                       "|"; "["; "]"; "\"]%char) c = isSyntaxCharacter c.
Proof. each_unit c; reflexivity. Qed.

Section Replace.

Variable t : Str.t.

(** The class matches one syntax character, and nothing else. *)
Lemma matchAt_escape (i : nat) :
  matchAt escapeRegExp t i =
  match nth_error t i with
  | Some ch => if isSyntaxCharacter ch then Some (unitState i) else None
  | None => None
  end.
Proof.
  unfold matchAt, escapeRegExp. cbn [pattern groupCount ignoreCase multiline repeat matchNode].
  unfold characterSetMatcher. cbn [endIndex captures].
  destruct (nth_error t i) as [ch|]; [|reflexivity].
  rewrite RegExpFacts.setHas_exact, escapeClass_syntax.
  destruct (isSyntaxCharacter ch); reflexivity.
Qed.

Lemma escape_plainText (s : Str.t) : plainText s -> escape s = s.
Proof.
  induction 1 as [|c s Hc _ IH]; [reflexivity|].
  unfold escape in *. cbn [flat_map]. unfold escapeUnit at 1.
  rewrite Hc, IH. reflexivity.
Qed.

Lemma skipn_substring (i pos : nat) :
  i <= pos -> skipn i t = Str.substring t i pos ++ skipn pos t.
Proof.
  intros H. unfold Str.substring.
  rewrite <- (firstn_skipn (pos - i) (skipn i t)) at 1.
  rewrite skipn_skipn. replace (pos - i + i) with pos by lia. reflexivity.
Qed.

(** The search stops at the first syntax character from [i] on. *)
Lemma searchFrom_escape (n i : nat) :
  i + n = length t + 1 ->
  (StringProto.searchFrom escapeRegExp t n i = None /\ plainText (skipn i t))
  \/ (exists pos ch,
         StringProto.searchFrom escapeRegExp t n i = Some (pos, unitState pos)
         /\ i <= pos /\ nth_error t pos = Some ch /\ isSyntaxCharacter ch = true
         /\ plainText (Str.substring t i pos)).
Proof.
  revert i. induction n as [|n IH]; intros i Hn.
  - left. split; [reflexivity|]. rewrite skipn_all2 by lia. constructor.
  - cbn [StringProto.searchFrom]. rewrite matchAt_escape.
    destruct (nth_error t i) as [ch|] eqn:E.
    + destruct (isSyntaxCharacter ch) eqn:Hch.
      * right. exists i, ch. rewrite StrFacts.substring_empty.
        repeat split; try assumption; try lia. constructor.
      * destruct (IH (i + 1)) as [[H1 H2]|[pos [ch' [H1 [H2 [H3 [H4 H5]]]]]]]; [lia| |].
        -- left. split; [exact H1|].
           rewrite (StrFacts.skipn_nth_error_Some _ _ E). constructor; [exact Hch|].
           replace (S i) with (i + 1) by lia. exact H2.
        -- right. exists pos, ch'. repeat split; try assumption; try lia.
           rewrite (StrFacts.substring_split t (a:=i) (b:=i + 1) (c:=pos)) by lia.
           apply Forall_app. split; [|exact H5].
           unfold Str.substring. replace (i + 1 - i) with 1 by lia.
           rewrite (StrFacts.skipn_nth_error_Some _ _ E). cbn [firstn].
           constructor; [exact Hch|constructor].
    + assert (Hi : length t <= i) by (apply nth_error_None, E).
      destruct (IH (i + 1)) as [[H1 H2]|[pos [ch' [H1 [H2 [H3 _]]]]]]; [lia| |].
      * left. split; [exact H1|]. rewrite skipn_all2 by lia. constructor.
      * exfalso. assert (pos < length t) by (apply nth_error_Some; congruence). lia.
Qed.

Lemma getSubstitution_escape (ch : ascii) (position : nat) :
  StringProto.getSubstitution t App.escapeTemplate [ch] position = Some ["\"%char; ch].
Proof. reflexivity. Qed.

(** The loop of [replace] copies the text and puts a backslash before every
    syntax character. *)
Lemma replaceLoop_escape (fuel i : nat) :
  i <= length t -> length t - i + 2 <= fuel ->
  StringProto.replaceLoop escapeRegExp t fuel App.escapeTemplate i i =
  Some (escape (skipn i t)).
Proof.
  revert i. induction fuel as [|fuel IH]; intros i Hi Hfuel; [lia|].
  cbn [StringProto.replaceLoop].
  destruct (searchFrom_escape (length t + 1 - i) i)
    as [[H1 H2]|[pos [ch [H1 [H2 [H3 [H4 H5]]]]]]]; [lia| |]; rewrite H1.
  - rewrite StrFacts.substring_to_end, (escape_plainText H2). reflexivity.
  - assert (Hpos : pos < length t) by (apply nth_error_Some; congruence).
    cbn [unitState endIndex].
    assert (Hm : Str.substring t pos (S pos) = [ch]).
    { unfold Str.substring. replace (S pos - pos) with 1 by lia.
      rewrite (StrFacts.skipn_nth_error_Some _ _ H3). reflexivity. }
    rewrite Hm, getSubstitution_escape. cbn [bind].
    replace (i <=? pos) with true by (symmetry; apply Nat.leb_le; exact H2).
    replace (S pos =? pos) with false by (symmetry; apply Nat.eqb_neq; lia).
    rewrite IH by lia. cbn [bind].
    rewrite (skipn_substring (i:=i) (pos:=pos)) by exact H2.
    rewrite (StrFacts.skipn_nth_error_Some _ _ H3).
    unfold escape. rewrite flat_map_app. cbn [flat_map].
    fold (escape (Str.substring t i pos)). rewrite (escape_plainText H5).
    unfold escapeUnit. rewrite H4. reflexivity.
Qed.

End Replace.

(** [t.replace(/[.*+?^${}()|[\]\\]/g, "\\$&")] is the escaped form of [t]. *)
Lemma escapeTerm_escape (t : Str.t) : App.escapeTerm t = Some (escape t).
Proof.
  unfold App.escapeTerm. rewrite create_escape. cbn [bind].
  unfold StringProto.replace. rewrite replaceLoop_escape by lia.
  reflexivity.
Qed.

Lemma mapM_escapeTerm (terms : list Str.t) :
  mapM App.escapeTerm terms = Some (map escape terms).
Proof.
  induction terms as [|t terms IH]; [reflexivity|].
  cbn [mapM map]. rewrite escapeTerm_escape, IH. reflexivity.
Qed.

(** The pattern source: the escaped terms, joined by bars, in a group
    between two word boundaries. *)
Lemma patternSource_escape (terms : list Str.t) :
  App.patternSource terms =
  Some (Str.ofString "\b(" ++ Str.join (Str.ofString "|") (map escape terms)
        ++ Str.ofString ")\b").
Proof. unfold App.patternSource. rewrite mapM_escapeTerm. reflexivity. Qed.

(** The RegExp that [highlightText] builds is the combined matcher. *)
Lemma create_combined (terms : list Str.t) :
  terms <> [] ->
  exists source,
    App.patternSource terms = Some source /\
    RegExp.create source (Str.ofString "gi") = Some (combinedRegExp terms).
Proof.
  intros Hne. eexists. split.
  - unfold App.patternSource. rewrite mapM_escapeTerm. reflexivity.
  - unfold RegExp.create.
    change (Str.ofString "\b(") with ["\"%char; "b"%char; "("%char].
    change (Str.ofString ")\b") with [")"%char; "\"%char; "b"%char].
    change (Str.ofString "|") with ["|"%char].
    rewrite (ParserFacts.parsePattern_combined Hne). reflexivity.
Qed.

End EscapeFacts.

(** ** The matcher never moves backwards *)

Module AdvanceFacts.

Import RegExp Reference.

Section Advance.

Variable input : Str.t.
Variables ic ml : bool.

Lemma After_refl (x : MatchState) : After input x x.
Proof. split; auto. Qed.

Lemma After_trans (x y z : MatchState) :
  After input x y -> After input y z -> After input x z.
Proof. unfold After. intros [H1 H2] [H3 H4]. split; [lia|auto]. Qed.

Lemma characterSetMatcher_advances (A : ascii -> bool) (invert : bool) :
  Advances input (characterSetMatcher input ic A invert).
Proof.
  intros x c z. unfold characterSetMatcher.
  destruct (nth_error input (endIndex x)) as [ch|] eqn:E; [|discriminate].
  destruct (Bool.eqb (setHas ic A ch) invert); [discriminate|].
  intros H. eexists. split; [|exact H].
  assert (endIndex x < length input) by (apply nth_error_Some; congruence).
  split; cbn [endIndex]; lia.
Qed.

Lemma assertion_advances (holds : nat -> bool) : Advances input (assertion holds).
Proof.
  intros x c z. unfold assertion. destruct (holds (endIndex x)); [|discriminate].
  intros H. exists x. split; [apply After_refl|exact H].
Qed.

Lemma repeatMatcher_advances (m : Matcher) (groups : list nat) (greedy : bool) :
  Advances input m ->
  forall fuel min max, Advances input (repeatMatcher fuel m groups min max greedy).
Proof.
  intros Hm. induction fuel as [|fuel IH]; intros min max x c z; [discriminate|].
  cbn [repeatMatcher].
  set (d := fun y : MatchState =>
              if (min =? 0) && (endIndex y =? endIndex x) then None
              else repeatMatcher fuel m groups (pred min) (option_map pred max) greedy y c).
  set (xr := {| endIndex := endIndex x; captures := clearCaptures groups (captures x) |}).
  assert (Here : c x = Some z -> exists y, After input x y /\ c y = Some z).
  { intros H. exists x. split; [apply After_refl|exact H]. }
  assert (Hiter : m xr d = Some z -> exists y, After input x y /\ c y = Some z).
  { intros H. destruct (Hm _ _ _ H) as [y1 [Hy1 Hd]]. unfold d in Hd.
    destruct ((min =? 0) && (endIndex y1 =? endIndex x)); [discriminate|].
    destruct (IH _ _ _ _ _ Hd) as [y [Hy Hc]].
    exists y. split; [|exact Hc].
    apply After_trans with y1; [|exact Hy]. exact Hy1. }
  destruct max as [[|k]|]; [exact Here| |].
  all: destruct (negb (min =? 0)); [exact Hiter|].
  all: destruct greedy.
  all: try (destruct (m xr d) eqn:E; [intros H; rewrite <- H in *; exact (Hiter eq_refl)|exact Here]).
  all: destruct (c x) eqn:E; [intros H; rewrite <- H in *; exact (Here eq_refl)|exact Hiter].
Qed.

Lemma matchNode_advances (r : Node) : Advances input (matchNode input ic ml r).
Proof.
  induction r as [|ch| |invert atoms| | |invert|k r IH|r1 IH1 r2 IH2|r1 IH1 r2 IH2
                  |min max greedy r IH]; cbn [matchNode].
  - intros x c z H. exists x. split; [apply After_refl|exact H].
  - apply characterSetMatcher_advances.
  - apply characterSetMatcher_advances.
  - apply characterSetMatcher_advances.
  - apply assertion_advances.
  - apply assertion_advances.
  - apply assertion_advances.
  - intros x c z H. destruct (IH _ _ _ H) as [y [Hy Hc]].
    eexists. split; [|exact Hc]. exact Hy.
  - intros x c z H. destruct (IH1 _ _ _ H) as [y1 [Hy1 H1]].
    destruct (IH2 _ _ _ H1) as [y [Hy Hc]].
    exists y. split; [eapply After_trans; eassumption|exact Hc].
  - intros x c z H. destruct (matchNode input ic ml r1 x c) eqn:E.
    + rewrite <- H in *. exact (IH1 _ _ _ E).
    + exact (IH2 _ _ _ H).
  - intros x c z H. exact (repeatMatcher_advances _ _ IH _ _ _ _ _ H).
Qed.

End Advance.

(** A match at [q] ends at [q] or later, and inside the text. *)
Lemma matchAt_advances (R : RegExp.t) (subject : Str.t) (q : nat) (z : MatchState) :
  matchAt R subject q = Some z ->
  q <= endIndex z /\ (q <= length subject -> endIndex z <= length subject).
Proof.
  unfold matchAt. intros H.
  destruct (matchNode_advances _ _ _ _ _ _ H) as [y [[H1 H2] Hy]].
  injection Hy as <-. cbn [endIndex] in *. split; assumption.
Qed.

End AdvanceFacts.

(** ** The split loop *)

Module SplitFacts.

Import RegExp Reference StringProto.

Section Loop.

Variable R : RegExp.t.
Variable subject : Str.t.

(** With the fuel [split] gives it the loop ends, and its pieces tile the
    text from [p] on. *)
Lemma splitLoop_tiles (fuel p q : nat) :
  p <= q -> q <= length subject ->
  (forall q', p <= q' < q -> Skipped R subject p q') ->
  2 * (length subject - q) + (if p <? q then 1 else 0) < fuel ->
  exists pieces,
    splitLoop R subject fuel p q = Some pieces /\ Tiles R subject p pieces.
Proof.
  revert p q. induction fuel as [|fuel IH]; intros p q Hpq Hq Hskip Hfuel; [lia|].
  cbn [splitLoop].
  destruct (q <? length subject) eqn:Elt.
  - apply Nat.ltb_lt in Elt.
    assert (Hnext : (forall q', p <= q' < q + 1 -> Skipped R subject p q') ->
                    exists pieces, splitLoop R subject fuel p (q + 1) = Some pieces
                                   /\ Tiles R subject p pieces).
    { intros Hs. apply IH; try lia; [exact Hs|].
      replace (p <? q + 1) with true by (symmetry; apply Nat.ltb_lt; lia).
      destruct (p <? q); lia. }
    destruct (matchAt R subject q) as [z|] eqn:Ez.
    + destruct (AdvanceFacts.matchAt_advances _ _ _ Ez) as [Hz1 Hz2].
      destruct (Nat.min (endIndex z) (length subject) =? p) eqn:Ep.
      * apply Nat.eqb_eq in Ep. apply Hnext. intros q' Hq'.
        destruct (Nat.eq_dec q' q) as [->|Hne]; [|apply Hskip; lia].
        unfold Skipped. rewrite Ez. exact Ep.
      * apply Nat.eqb_neq in Ep.
        set (e := Nat.min (endIndex z) (length subject)) in *.
        assert (He : q <= e <= length subject) by (unfold e; lia).
        assert (Hmeasure : 2 * (length subject - e) + (if e <? e then 1 else 0) < fuel).
        { rewrite Nat.ltb_irrefl.
          destruct (p <? q) eqn:E; [lia|]. apply Nat.ltb_ge in E. lia. }
        assert (Hnone : forall q', e <= q' < e -> Skipped R subject e q')
          by (intros q' Hq'; lia).
        destruct (IH e e (Nat.le_refl e) (proj2 He) Hnone Hmeasure)
          as [rest [Hrest Htiles]].
        rewrite Hrest. cbn [option_map]. eexists. split; [reflexivity|].
        apply tiles_match; assumption.
    + apply Hnext. intros q' Hq'.
      destruct (Nat.eq_dec q' q) as [->|Hne]; [|apply Hskip; lia].
      unfold Skipped. rewrite Ez. exact I.
  - apply Nat.ltb_ge in Elt. eexists. split; [reflexivity|].
    apply tiles_end; [lia|]. intros q' Hq'. apply Hskip. lia.
Qed.

(** [split] always returns; on a text that is not empty its pieces tile the
    text. *)
Lemma splitPieces_tiles :
  subject <> [] ->
  exists pieces, splitPieces R subject = Some pieces /\ Tiles R subject 0 pieces.
Proof.
  intros Hne. unfold splitPieces.
  assert (Hlen : length subject <> 0) by (destruct subject; [congruence|discriminate]).
  replace (length subject =? 0) with false by (symmetry; apply Nat.eqb_neq, Hlen).
  apply splitLoop_tiles;
    [lia|lia|intros q' Hq'; lia|rewrite Nat.ltb_irrefl; lia].
Qed.

Lemma splitPieces_total : exists pieces, splitPieces R subject = Some pieces.
Proof.
  destruct (list_eq_dec ascii_dec subject []) as [E|E].
  - unfold splitPieces. rewrite E. cbn [length Nat.eqb].
    destruct (matchAt R [] 0); eexists; reflexivity.
  - destruct (splitPieces_tiles E) as [pieces [H _]].
    exists pieces. exact H.
Qed.

End Loop.

End SplitFacts.

(** ** The highlighter *)

Module HighlightFacts.

Import RegExp Reference StringProto.

Lemma occursAtHead_length (t s : Str.t) :
  occursAtHead t s = true -> length t <= length s.
Proof.
  revert s. induction t as [|c t IH]; intros [|ch s] H; cbn in *; try lia; try discriminate.
  apply andb_true_iff in H. destruct H as [_ H]. apply IH in H. lia.
Qed.

(** On the code units up to U+00FF an occurrence up to case has the lower
    case of the term. *)
Lemma occursAtHead_lower (t s : Str.t) :
  occursAtHead t s = true ->
  Str.toLowerCase (firstn (length t) s) = Str.toLowerCase t.
Proof.
  revert s. induction t as [|c t IH]; intros [|ch s] H; cbn in *; try reflexivity;
    try discriminate.
  apply andb_true_iff in H. destruct H as [Hc H].
  apply Nat.eqb_eq, CodeUnitFacts.canonical_iff_lower in Hc.
  unfold Str.toLowerCase in *. rewrite Hc, (IH _ H). reflexivity.
Qed.

Lemma lower_occursAtHead (t s : Str.t) :
  Str.toLowerCase s = Str.toLowerCase t -> occursAtHead t s = true.
Proof.
  revert s. induction t as [|c t IH]; intros [|ch s] H; cbn in *; try reflexivity;
    try discriminate.
  injection H as Hc H. apply andb_true_iff. split.
  - apply Nat.eqb_eq, CodeUnitFacts.canonical_iff_lower. symmetry. exact Hc.
  - apply IH, H.
Qed.

Lemma highlightText_nonempty (text : Str.t) (terms : list Str.t) :
  terms <> [] ->
  App.highlightText text terms =
  (source <- App.patternSource terms ;;
   pattern <- RegExp.create source (Str.ofString "gi") ;;
   parts <- split pattern text ;;
   children <- mapM (App.renderPart terms) parts ;;
   Some (App.Elements children)).
Proof. destruct terms; [congruence|reflexivity]. Qed.

Section Terms.

Variable text : Str.t.
Variable terms : list Str.t.
Hypothesis nonempty : terms <> [].

Let R := combinedRegExp terms.

Lemma termAt_Some (q : nat) (t : Str.t) :
  termAt text terms q = Some t ->
  In t terms /\ atWordBoundary text q = true /\
  occursAtHead t (skipn q text) = true /\
  atWordBoundary text (q + length t) = true.
Proof.
  unfold termAt. destruct (atWordBoundary text q); [|discriminate].
  intros H. apply find_some in H. destruct H as [Hin H].
  unfold occursBounded in H. apply andb_true_iff in H. tauto.
Qed.

Lemma termAt_inside (q : nat) (t : Str.t) :
  termAt text terms q = Some t -> q <= length text -> q + length t <= length text.
Proof.
  intros H Hq. apply termAt_Some in H. destruct H as [_ [_ [H _]]].
  apply occursAtHead_length in H. rewrite length_skipn in H. lia.
Qed.

(** The result of a match of the combined matcher. *)
Lemma matchAt_term (q : nat) (z : MatchState) :
  matchAt R text q = Some z ->
  exists t, termAt text terms q = Some t /\
            z = {| endIndex := q + length t; captures := [Some (q, q + length t)] |}.
Proof.
  unfold R. rewrite RegExpFacts.matchAt_combined by exact nonempty.
  destruct (termAt text terms q) as [t|]; [|discriminate].
  cbn [option_map]. intros H. injection H as <-. exists t. split; reflexivity.
Qed.

(** The pieces are strings, and put together they are the text. *)
Lemma tiles_text (p : nat) (pieces : list Piece) :
  Tiles R text p pieces ->
  Forall (fun pc => pieceValue text pc = Some (textOf text pc)) pieces /\
  concat (map (textOf text) pieces) = Str.substring text p (length text).
Proof.
  induction 1 as [p Hp Hskip|p q z rest Hpq Hq Hskip Hz Hne Hrest IH].
  - split; [repeat constructor|]. cbn. apply app_nil_r.
  - destruct (matchAt_term _ Hz) as [t [Ht ->]]. cbn [endIndex captures] in *.
    pose proof (termAt_inside Ht (Nat.lt_le_incl _ _ Hq)) as Hin.
    rewrite Nat.min_l in * by exact Hin.
    destruct IH as [IH1 IH2]. split.
    + constructor; [reflexivity|]. constructor; [reflexivity|exact IH1].
    + cbn [map app concat]. rewrite IH2.
      unfold textOf at 1 2. cbn [pieceValue].
      rewrite <- StrFacts.substring_split by lia.
      rewrite <- StrFacts.substring_split by lia. reflexivity.
Qed.

Lemma splitPieces_combined :
  exists pieces, splitPieces R text = Some pieces /\ Tiles R text 0 pieces.
Proof.
  destruct (list_eq_dec ascii_dec text []) as [E|E].
  - exists [Fragment 0 0]. rewrite E. split.
    + unfold splitPieces. cbn [length Nat.eqb]. unfold R.
      rewrite RegExpFacts.matchAt_combined by exact nonempty. reflexivity.
    + apply (@tiles_end R [] 0); [cbn; lia|]. cbn. intros q Hq. lia.
  - apply SplitFacts.splitPieces_tiles, E.
Qed.

Lemma renderParts (pieces : list Piece) :
  Forall (fun pc => pieceValue text pc = Some (textOf text pc)) pieces ->
  mapM (App.renderPart terms) (map (pieceValue text) pieces) =
  Some (map (spanOf terms text) pieces).
Proof.
  induction 1 as [|pc pieces Hpc _ IH]; [reflexivity|].
  cbn [map mapM]. rewrite Hpc, IH. cbn [App.renderPart bind]. unfold spanOf.
  destruct (App.isTerm terms (textOf text pc)); reflexivity.
Qed.

(** What [highlightText] returns for a term list that is not empty: the
    pieces of the split, each one rendered. *)
Lemma highlightText_pieces :
  exists pieces,
    splitPieces R text = Some pieces /\ Tiles R text 0 pieces /\
    App.highlightText text terms = Some (App.Elements (map (spanOf terms text) pieces)).
Proof.
  destruct splitPieces_combined as [pieces [Hsplit Htiles]].
  exists pieces. split; [exact Hsplit|]. split; [exact Htiles|].
  destruct (EscapeFacts.create_combined nonempty) as [source [Hsource Hcreate]].
  rewrite highlightText_nonempty by exact nonempty.
  rewrite Hsource. cbn [bind]. rewrite Hcreate. cbn [bind].
  unfold split. fold R. rewrite Hsplit. cbn [option_map bind].
  rewrite renderParts by (apply tiles_text with (p := 0); exact Htiles).
  reflexivity.
Qed.

Lemma spans_text (pieces : list Piece) :
  map snd (map (spanOf terms text) pieces) = map (textOf text) pieces.
Proof. rewrite map_map. reflexivity. Qed.

End Terms.

(** [highlightText] returns, whatever the text and the terms. *)
Lemma highlightText_total (text : Str.t) (terms : list Str.t) :
  exists r, App.highlightText text terms = Some r.
Proof.
  destruct terms as [|t ts]; [eexists; reflexivity|].
  assert (Hne : t :: ts <> []) by discriminate.
  destruct (highlightText_pieces text Hne) as [pieces [_ [_ Hr]]].
  eexists. exact Hr.
Qed.

End HighlightFacts.

(** ** Which pieces are marked *)

Module TagFacts.

Import RegExp Reference StringProto.

Lemma isTerm_iff (terms : list Str.t) (s : Str.t) :
  App.isTerm terms s = true <->
  exists t, In t terms /\ Str.toLowerCase t = Str.toLowerCase s.
Proof.
  unfold App.isTerm. rewrite existsb_exists.
  split; intros [t [Hin H]]; exists t; (split; [exact Hin|]);
    apply StrFacts.eqb_eq; exact H.
Qed.

Lemma headWord_lower (a b : Str.t) :
  Str.toLowerCase a = Str.toLowerCase b -> headWord a = headWord b.
Proof.
  destruct a as [|c a], b as [|d b]; cbn; intros H; try reflexivity; try discriminate.
  injection H as H _. apply CodeUnitFacts.isWordChar_lower, H.
Qed.

Lemma lower_rev (a : Str.t) : Str.toLowerCase (rev a) = rev (Str.toLowerCase a).
Proof. unfold Str.toLowerCase. apply map_rev. Qed.

Lemma lower_length (a b : Str.t) :
  Str.toLowerCase a = Str.toLowerCase b -> length a = length b.
Proof.
  unfold Str.toLowerCase. intros H.
  rewrite <- (length_map CodeUnit.toLowerCase a), H. apply length_map.
Qed.

Lemma occursAtHead_firstn (t s : Str.t) (n : nat) :
  occursAtHead t (firstn n s) = true -> occursAtHead t s = true.
Proof.
  revert s n. induction t as [|c t IH]; intros s n; [reflexivity|].
  destruct n as [|n]; [rewrite firstn_O; discriminate|].
  destruct s as [|ch s]; [discriminate|]. cbn.
  intros H. apply andb_true_iff in H. destruct H as [H1 H2].
  rewrite H1. exact (IH _ _ H2).
Qed.

Section Text.

Variable text : Str.t.

Lemma wordCharAt_head (p : nat) : wordCharAt text p = headWord (skipn p text).
Proof.
  unfold wordCharAt. destruct (nth_error text p) as [c|] eqn:E.
  - rewrite (StrFacts.skipn_nth_error_Some _ _ E). reflexivity.
  - rewrite (StrFacts.skipn_nth_error_None _ _ E). reflexivity.
Qed.

Lemma substring_head (p q : nat) :
  p < q -> headWord (Str.substring text p q) = wordCharAt text p.
Proof.
  intros H. rewrite wordCharAt_head. unfold Str.substring.
  destruct (q - p) as [|n] eqn:E; [lia|].
  destruct (skipn p text); reflexivity.
Qed.

Lemma substring_last (p q : nat) :
  p < q -> q <= length text ->
  headWord (rev (Str.substring text p q)) = wordCharBefore text q.
Proof.
  intros Hpq Hq. destruct q as [|q]; [lia|]. cbn [wordCharBefore].
  rewrite (StrFacts.substring_split text (a:=p) (b:=q) (c:=S q)) by lia.
  unfold wordCharAt.
  destruct (nth_error text q) as [c|] eqn:E.
  - unfold Str.substring at 2. replace (S q - q) with 1 by lia.
    rewrite (StrFacts.skipn_nth_error_Some _ _ E). cbn [firstn].
    rewrite rev_app_distr. reflexivity.
  - apply nth_error_None in E. lia.
Qed.

Variable terms : list Str.t.
Hypothesis nonempty : terms <> [].

Let R := combinedRegExp terms.

(** The capture of a match is an occurrence of a term up to case: on the
    code units up to U+00FF the mark test accepts it. *)
Lemma tiles_captures (p : nat) (pieces : list Piece) :
  Tiles R text p pieces ->
  Forall (fun pc => match pc with
                    | Capture _ => App.isTerm terms (textOf text pc) = true
                    | Fragment _ _ => True
                    end) pieces.
Proof.
  induction 1 as [p Hp Hskip|p q z rest Hpq Hq Hskip Hz Hne Hrest IH].
  - repeat constructor.
  - constructor; [exact I|].
    destruct (HighlightFacts.matchAt_term text nonempty _ Hz) as [t [Ht ->]].
    cbn [captures map app]. constructor; [|exact IH].
    apply isTerm_iff. exists t.
    destruct (HighlightFacts.termAt_Some _ _ _ Ht) as [Hin [_ [Hocc _]]].
    split; [exact Hin|].
    unfold textOf. cbn [pieceValue]. unfold Str.substring.
    replace (q + length t - q) with (length t) by lia.
    symmetry. apply HighlightFacts.occursAtHead_lower, Hocc.
Qed.

Hypothesis allWordy : Forall (fun t => wordy t = true) terms.

(** A run between two word boundaries that is a term up to case is taken by
    the matcher at its first index. *)
Lemma term_run_matched (p q : nat) :
  p <= q -> q <= length text ->
  (p = 0 \/ atWordBoundary text p = true) ->
  (q = length text \/ atWordBoundary text q = true) ->
  App.isTerm terms (Str.substring text p q) = true ->
  exists z, matchAt R text p = Some z /\ p < endIndex z <= length text.
Proof.
  intros Hpq Hq Hp Hend Hterm.
  apply isTerm_iff in Hterm. destruct Hterm as [t [Hin Hlow]].
  assert (Hw : wordy t = true) by (rewrite Forall_forall in allWordy; auto).
  unfold wordy in Hw. apply andb_true_iff in Hw. destruct Hw as [Hw1 Hw2].
  assert (Hlen : length t = q - p).
  { rewrite (lower_length _ _ Hlow). apply StrFacts.substring_length; lia. }
  assert (Hlt : p < q) by (destruct t; [discriminate|cbn in Hlen; lia]).
  assert (Hb1 : atWordBoundary text p = true).
  { destruct Hp as [->|Hp]; [|exact Hp].
    unfold atWordBoundary. cbn [wordCharBefore].
    rewrite <- (substring_head Hlt), <- (headWord_lower _ _ Hlow), Hw1. reflexivity. }
  assert (Hb2 : atWordBoundary text q = true).
  { destruct Hend as [->|He]; [|exact He].
    unfold atWordBoundary.
    rewrite <- (substring_last (p:=p)) by lia.
    rewrite <- (headWord_lower (rev t)), Hw2
      by (rewrite !lower_rev; f_equal; exact Hlow).
    unfold wordCharAt.
    replace (nth_error text (length text)) with (@None ascii)
      by (symmetry; apply nth_error_None; lia).
    reflexivity. }
  assert (Hocc : occursBounded text p t = true).
  { unfold occursBounded. apply andb_true_iff. split.
    - apply occursAtHead_firstn with (n := q - p).
      apply HighlightFacts.lower_occursAtHead. symmetry. exact Hlow.
    - replace (p + length t) with q by lia. exact Hb2. }
  unfold R. rewrite RegExpFacts.matchAt_combined by exact nonempty.
  unfold termAt. rewrite Hb1.
  destruct (find (occursBounded text p) terms) as [t'|] eqn:Ef.
  - cbn [option_map]. eexists. split; [reflexivity|]. cbn [endIndex].
    assert (Ht' : termAt text terms p = Some t') by (unfold termAt; rewrite Hb1; exact Ef).
    pose proof (HighlightFacts.termAt_inside _ _ Ht') as Hin'.
    apply find_some in Ef. destruct Ef as [Hin2 _].
    assert (Hw' : wordy t' = true) by (rewrite Forall_forall in allWordy; auto).
    destruct t' as [|c t']; [discriminate|]. cbn [length] in *. lia.
  - exfalso. exact (eq_true_false_abs _ Hocc (find_none _ _ Ef _ Hin)).
Qed.

(** When every term starts and ends with a word character, no fragment
    passes the mark test. *)
Lemma tiles_fragments (p : nat) (pieces : list Piece) :
  Tiles R text p pieces ->
  (p = 0 \/ atWordBoundary text p = true) ->
  Forall (fun pc => match pc with
                    | Fragment _ _ => App.isTerm terms (textOf text pc) = false
                    | Capture _ => True
                    end) pieces.
Proof.
  assert (Hskipped : forall p q,
             p <= q -> q <= length text ->
             (p = 0 \/ atWordBoundary text p = true) ->
             (q = length text \/ atWordBoundary text q = true) ->
             (forall q', p <= q' < q -> Skipped R text p q') ->
             App.isTerm terms (Str.substring text p q) = false).
  { intros p0 q0 Hpq Hq Hp Hend Hskip. apply not_true_is_false. intros Hterm.
    destruct (term_run_matched Hpq Hq Hp Hend Hterm) as [z [Hz Hz']].
    assert (Hlt : p0 < q0).
    { apply isTerm_iff in Hterm. destruct Hterm as [t [Hin Hlow]].
      assert (Hw : wordy t = true) by (rewrite Forall_forall in allWordy; auto).
      apply lower_length in Hlow. rewrite StrFacts.substring_length in Hlow by lia.
      destruct t; [discriminate|cbn in Hlow; lia]. }
    specialize (Hskip p0 (conj (Nat.le_refl _) Hlt)).
    unfold Skipped in Hskip. rewrite Hz in Hskip. lia. }
  induction 1 as [p Hp Hskip|p q z rest Hpq Hq Hskip Hz Hne Hrest IH]; intros Hinv.
  - constructor; [|constructor]. unfold textOf. cbn [pieceValue].
    apply Hskipped; auto.
  - destruct (HighlightFacts.matchAt_term text nonempty _ Hz) as [t [Ht ->]].
    destruct (HighlightFacts.termAt_Some _ _ _ Ht) as [_ [Hb1 [_ Hb2]]].
    pose proof (HighlightFacts.termAt_inside _ _ Ht (Nat.lt_le_incl _ _ Hq)) as Hin.
    cbn [endIndex captures map app] in *. rewrite Nat.min_l in * by exact Hin.
    constructor; [|constructor; [exact I|]].
    + unfold textOf. cbn [pieceValue]. apply Hskipped; auto; lia.
    + apply IH. right. exact Hb2.
Qed.

End Text.

End TagFacts.

(** ** The tokenizer *)

Module TokenizeFacts.

Import RegExp Reference StringProto.

Lemma create_space :
  RegExp.create (Str.ofString "\s+") (Str.ofString "") = Some spaceRegExp.
Proof. vm_compute. reflexivity. Qed.

Section Text.

Variable text : Str.t.

Lemma spaceMatcher_step (e : nat) (d : Continuation) :
  spaceMatcher text (stateAt e) d =
  match nth_error text e with
  | Some ch => if CodeUnit.isWhiteSpace ch then d (stateAt (S e)) else None
  | None => None
  end.
Proof.
  unfold spaceMatcher. cbn [matchNode]. unfold characterSetMatcher.
  cbn [stateAt endIndex captures].
  destruct (nth_error text e) as [ch|]; [|reflexivity].
  rewrite RegExpFacts.setHas_exact. unfold classHas. cbn [existsb classAtomHas xorb].
  rewrite orb_false_r. destruct (CodeUnit.isWhiteSpace ch); reflexivity.
Qed.

(** After the first white space the repetition takes the rest of the run. *)
Lemma repeat_rest (fuel e : nat) :
  length text - e < fuel ->
  repeatMatcher fuel (spaceMatcher text) [] 0 None true (stateAt e) (fun y => Some y) =
  Some (stateAt (e + spaceRun (skipn e text))).
Proof.
  revert e. induction fuel as [|fuel IH]; intros e Hfuel; [lia|].
  cbn [repeatMatcher Nat.eqb negb andb pred option_map clearCaptures fold_left
       stateAt endIndex captures].
  fold (stateAt e). rewrite spaceMatcher_step.
  destruct (nth_error text e) as [ch|] eqn:E.
  - rewrite (StrFacts.skipn_nth_error_Some _ _ E). cbn [spaceRun].
    destruct (CodeUnit.isWhiteSpace ch).
    + cbn [stateAt endIndex].
      replace (S e =? e) with false by (symmetry; apply Nat.eqb_neq; lia).
      fold (stateAt (S e)).
      assert (He : e < length text) by (apply nth_error_Some; congruence).
      rewrite IH by lia. f_equal. f_equal. lia.
    + rewrite Nat.add_0_r. reflexivity.
  - rewrite (StrFacts.skipn_nth_error_None _ _ E). cbn [spaceRun].
    rewrite Nat.add_0_r. reflexivity.
Qed.

Lemma repeat_first (fuel e : nat) (c : Continuation) :
  repeatMatcher (S fuel) (spaceMatcher text) [] 1 None true (stateAt e) c =
  spaceMatcher text (stateAt e)
    (fun y => repeatMatcher fuel (spaceMatcher text) [] 0 None true y c).
Proof. reflexivity. Qed.

(** [/\s+/] at [q]: the whole run of white space that starts there, if there
    is one. *)
Lemma matchAt_space (q : nat) :
  matchAt spaceRegExp text q =
  match spaceRun (skipn q text) with
  | 0 => None
  | S n => Some (stateAt (q + S n))
  end.
Proof.
  change (matchAt spaceRegExp text q)
    with (repeatMatcher (1 + (length text - q) + 1) (spaceMatcher text) [] 1 None true
            (stateAt q) (fun y => Some y)).
  replace (1 + (length text - q) + 1) with (S (S (length text - q))) by lia.
  rewrite repeat_first, spaceMatcher_step.
  destruct (nth_error text q) as [ch|] eqn:E.
  - rewrite (StrFacts.skipn_nth_error_Some _ _ E). cbn [spaceRun].
    destruct (CodeUnit.isWhiteSpace ch); [|reflexivity].
    assert (He : q < length text) by (apply nth_error_Some; congruence).
    rewrite repeat_rest by lia.
    f_equal. f_equal. lia.
  - rewrite (StrFacts.skipn_nth_error_None _ _ E). reflexivity.
Qed.

End Text.

(** *** The words of a text *)

Lemma wordsFrom_run (w s acc : Str.t) :
  Forall notSpace w -> wordsFrom acc (w ++ s) = wordsFrom (rev w ++ acc) s.
Proof.
  intros H. revert acc. induction H as [|c w Hc _ IH]; intros acc; [reflexivity|].
  cbn [app wordsFrom]. rewrite Hc, IH. cbn [rev]. rewrite <- app_assoc. reflexivity.
Qed.

Lemma wordsFrom_spaces (ws s : Str.t) :
  Forall isSpace ws -> wordsFrom [] (ws ++ s) = wordsFrom [] s.
Proof.
  induction 1 as [|c ws Hc _ IH]; [reflexivity|].
  cbn [app wordsFrom]. rewrite Hc. exact IH.
Qed.

Lemma wordsFrom_word (w ws s : Str.t) :
  Forall notSpace w -> Forall isSpace ws -> ws <> [] ->
  wordsFrom [] (w ++ ws ++ s) = wordOf w ++ wordsFrom [] s.
Proof.
  intros Hw Hws Hne. rewrite (wordsFrom_run _ _ Hw), app_nil_r.
  destruct ws as [|c ws]; [congruence|].
  inversion Hws as [|? ? Hc Hws']; subst.
  cbn [app wordsFrom]. rewrite Hc, (wordsFrom_spaces _ Hws').
  destruct w as [|a w]; [reflexivity|].
  destruct (rev (a :: w)) eqn:E.
  - apply (f_equal (@length ascii)) in E. rewrite length_rev in E. discriminate.
  - rewrite <- E, rev_involutive. reflexivity.
Qed.

Lemma wordsFrom_last (w : Str.t) :
  Forall notSpace w -> wordsFrom [] w = wordOf w.
Proof.
  intros Hw. rewrite <- (app_nil_r w) at 1.
  rewrite (wordsFrom_run _ _ Hw), app_nil_r. cbn [wordsFrom].
  destruct w as [|a w]; [reflexivity|].
  destruct (rev (a :: w)) eqn:E.
  - apply (f_equal (@length ascii)) in E. rewrite length_rev in E. discriminate.
  - rewrite <- E, rev_involutive. reflexivity.
Qed.

Lemma spaceRun_split (s : Str.t) :
  Forall isSpace (firstn (spaceRun s) s).
Proof.
  induction s as [|c s IH]; [constructor|].
  cbn [spaceRun]. destruct (CodeUnit.isWhiteSpace c) eqn:E; [|constructor].
  cbn [firstn]. constructor; assumption.
Qed.

Lemma spaceRun_length (s : Str.t) : spaceRun s <= length s.
Proof.
  induction s as [|c s IH]; [cbn; lia|].
  cbn [spaceRun length]. destruct (CodeUnit.isWhiteSpace c); lia.
Qed.

Section Pieces.

Variable text : Str.t.

(** A skipped index holds no white space. *)
Lemma skipped_notSpace (p q : nat) :
  p <= q -> q < length text -> Skipped spaceRegExp text p q ->
  exists c, nth_error text q = Some c /\ notSpace c.
Proof.
  intros Hpq Hq. unfold Skipped. rewrite matchAt_space.
  destruct (nth_error text q) as [c|] eqn:E.
  - rewrite (StrFacts.skipn_nth_error_Some _ _ E). cbn [spaceRun].
    destruct (CodeUnit.isWhiteSpace c) eqn:Ec.
    + cbn [stateAt endIndex]. lia.
    + intros _. exists c. split; [reflexivity|exact Ec].
  - apply nth_error_None in E. lia.
Qed.

Lemma skipped_run (p q : nat) :
  p <= q -> q <= length text ->
  (forall q', p <= q' < q -> Skipped spaceRegExp text p q') ->
  Forall notSpace (Str.substring text p q).
Proof.
  intros Hpq Hq Hskip.
  induction q as [|q IH].
  - replace p with 0 by lia. constructor.
  - destruct (Nat.eq_dec p (S q)) as [->|Hne].
    + rewrite StrFacts.substring_empty. constructor.
    + rewrite (StrFacts.substring_split text (a:=p) (b:=q) (c:=S q)) by lia.
      apply Forall_app. split.
      * apply IH; [lia|lia|]. intros q' Hq'. apply Hskip. lia.
      * destruct (@skipped_notSpace p q) as [c [Hc Hn]]; [lia|lia|apply Hskip; lia|].
        unfold Str.substring. replace (S q - q) with 1 by lia.
        rewrite (StrFacts.skipn_nth_error_Some _ _ Hc). cbn [firstn].
        constructor; [exact Hn|constructor].
Qed.

Lemma filterBoolean_fragment (p q : nat) (rest : list (option Str.t)) :
  App.filterBoolean (Some (Str.substring text p q) :: rest) =
  wordOf (Str.substring text p q) ++ App.filterBoolean rest.
Proof. cbn [App.filterBoolean]. destruct (Str.substring text p q); reflexivity. Qed.

(** The fragments that are not empty are the words. *)
Lemma tiles_words (p : nat) (pieces : list Piece) :
  Tiles spaceRegExp text p pieces ->
  App.filterBoolean (map (pieceValue text) pieces) = wordsFrom [] (skipn p text).
Proof.
  induction 1 as [p Hp Hskip|p q z rest Hpq Hq Hskip Hz Hne Hrest IH].
  - cbn [map pieceValue]. rewrite filterBoolean_fragment. cbn [App.filterBoolean].
    rewrite app_nil_r, <- StrFacts.substring_to_end.
    symmetry. apply wordsFrom_last. apply skipped_run; [exact Hp|lia|exact Hskip].
  - rewrite matchAt_space in Hz.
    destruct (spaceRun (skipn q text)) as [|n] eqn:En; [discriminate|].
    injection Hz as <-. cbn [stateAt endIndex captures map app] in *.
    pose proof (spaceRun_length (skipn q text)) as Hlen.
    rewrite En, length_skipn in Hlen.
    rewrite Nat.min_l in * by lia.
    cbn [pieceValue]. rewrite filterBoolean_fragment, IH.
    rewrite (EscapeFacts.skipn_substring text (i:=p) (pos:=q)) by exact Hpq.
    rewrite <- (firstn_skipn (S n) (skipn q text)).
    rewrite skipn_skipn. replace (S n + q) with (q + S n) by lia.
    symmetry. apply wordsFrom_word.
    + apply skipped_run; [exact Hpq|lia|exact Hskip].
    + rewrite <- En. apply spaceRun_split.
    + intros E. apply (f_equal (@length ascii)) in E.
      rewrite length_firstn, length_skipn in E. cbn [length] in E. lia.
Qed.

End Pieces.

(** The tokenizer returns the words of the query. *)
Lemma tokenize_words (query : Str.t) : App.tokenize query = Some (words query).
Proof.
  unfold App.tokenize. rewrite create_space. cbn [bind]. unfold split.
  destruct (list_eq_dec ascii_dec query []) as [E|E].
  - rewrite E. reflexivity.
  - destruct (SplitFacts.splitPieces_tiles spaceRegExp E) as [pieces [Hs Ht]].
    rewrite Hs. cbn [option_map bind]. rewrite (tiles_words Ht). reflexivity.
Qed.

End TokenizeFacts.

(** ** The session *)

Module SessionFacts.

Import App Reference.

Section Session.

Variable number : Type.
Variable copy : Copy.

Lemma handleSearch_empty (s : State number) :
  Str.trim (query s) = [] ->
  handleSearch s = (setResults [] (setError (Some emptyQueryMessage) s), None).
Proof. unfold handleSearch. intros ->. reflexivity. Qed.

Lemma handleSearch_request (s : State number) :
  Str.trim (query s) <> [] ->
  handleSearch s =
  (setSelectedDoc None (setResults [] (setError None (setLoading true s))),
   Some {| url := BACKEND_URL; body := query s |}).
Proof. unfold handleSearch. destruct (Str.trim (query s)); [congruence|reflexivity]. Qed.

(** The response of a call that found neither error nor results leaves at
    most one of them. *)
Lemma resume_settled (r : Response number) (s : State number) :
  error s = None -> results s = [] ->
  error (resume copy r s) = None \/ results (resume copy r s) = [].
Proof.
  intros He Hr. unfold resume.
  destruct r as [data|]; cbn.
  - destruct (truthy (data_error data)); cbn; [right; reflexivity|].
    destruct (data_results data) as [[|d docs]|]; cbn; auto.
  - right. exact Hr.
Qed.

Lemma step_settled (ss ss' : Session number) (e : Event number) :
  Settled ss ->
  match e with
  | Submit => inFlight ss = []
  | _ => True
  end ->
  step copy ss e = Some ss' -> Settled ss'.
Proof.
  unfold Settled. intros Hinv Hquiet Hstep. destruct e as [q| |id r|d|]; cbn in Hstep.
  - injection Hstep as <-. exact Hinv.
  - unfold handleSearch in Hstep.
    destruct (Str.trim (query (state ss))); injection Hstep as <-;
      cbn [inFlight state]; rewrite Hquiet; cbn.
    + right. reflexivity.
    + split; reflexivity.
  - destruct (isInFlight id ss) eqn:E; [|discriminate]. injection Hstep as <-.
    unfold isInFlight in E. cbn [inFlight state].
    destruct (inFlight ss) as [|x [|y l]]; [discriminate| |contradiction].
    cbn in E. rewrite orb_false_r in E. cbn. rewrite E. cbn.
    destruct Hinv as [He Hr]. apply resume_settled; assumption.
  - injection Hstep as <-. exact Hinv.
  - injection Hstep as <-. exact Hinv.
Qed.

Lemma run_settled (trace : list (Event number)) (ss ss' : Session number) :
  Settled ss -> oneAtATime copy ss trace = true ->
  run copy ss trace = Some ss' -> Settled ss'.
Proof.
  revert ss. induction trace as [|e trace IH]; intros ss Hinv Hone Hrun.
  - injection Hrun as <-. exact Hinv.
  - cbn [run oneAtATime] in *. apply andb_true_iff in Hone. destruct Hone as [H1 H2].
    destruct (step copy ss e) as [ss1|] eqn:E; [|discriminate]. cbn [bind] in Hrun.
    apply (IH ss1); [|exact H2|exact Hrun].
    apply (@step_settled ss ss1 e Hinv); [|exact E].
    destruct e; try exact I. destruct (inFlight ss); [reflexivity|discriminate].
Qed.

Lemma settled_error (ss : Session number) :
  Settled ss -> error (state ss) = None \/ results (state ss) = [].
Proof.
  unfold Settled. destruct (inFlight ss) as [|x [|y l]]; [auto| |contradiction].
  intros [H _]. left. exact H.
Qed.

End Session.

(** Single steps of a run. *)
Lemma step_submit_request (number : Type) (copy : Copy) (ss : Session number) :
  Str.trim (query (state ss)) <> [] ->
  step copy ss Submit =
  Some {| state := setSelectedDoc None
                     (setResults [] (setError None (setLoading true (state ss))));
          inFlight := inFlight ss
                      ++ [(sent ss, {| url := BACKEND_URL; body := query (state ss) |})];
          sent := S (sent ss) |}.
Proof.
  intros H. cbn [step]. rewrite (handleSearch_request _ H). reflexivity.
Qed.

Lemma run_cons (number : Type) (copy : Copy) (ss : Session number)
    (e : Event number) (trace : list (Event number)) :
  run copy ss (e :: trace) = (ss' <- step copy ss e ;; run copy ss' trace).
Proof. reflexivity. Qed.

Lemma step_type (number : Type) (copy : Copy) (ss : Session number) (q : Str.t) :
  step copy ss (Type_ q) =
  Some {| state := setQuery q (state ss); inFlight := inFlight ss; sent := sent ss |}.
Proof. reflexivity. Qed.

Lemma step_arrive (number : Type) (copy : Copy) (ss : Session number) (id : nat)
    (r : Response number) :
  isInFlight id ss = true ->
  step copy ss (Arrive id r) =
  Some {| state := resume copy r (state ss);
          inFlight := filter (fun p => negb (Nat.eqb (fst p) id)) (inFlight ss);
          sent := sent ss |}.
Proof. intros H. cbn [step]. rewrite H. reflexivity. Qed.

Lemma resume_found (number : Type) (copy : Copy) (docs : list (DocResult number))
    (s : State number) :
  docs <> [] ->
  resume copy (found docs) s = setLoading false (setResults docs s).
Proof. intros H. destruct docs; [congruence|reflexivity]. Qed.

End SessionFacts.

Module WordFacts.

Import Reference.

Lemma wordsFrom_wellformed (s acc : Str.t) :
  Forall notSpace acc ->
  Forall (fun w => w <> [] /\ Forall notSpace w) (wordsFrom acc s).
Proof.
  assert (Hacc : forall a acc, Forall notSpace (a :: acc) ->
                 rev (a :: acc) <> [] /\ Forall notSpace (rev (a :: acc))).
  { intros a l H. split; [|apply Forall_rev, H].
    intros E. apply (f_equal (@length ascii)) in E. rewrite length_rev in E. discriminate. }
  revert acc. induction s as [|c s IH]; intros acc H.
  - destruct acc as [|a acc]; [constructor|]. constructor; [apply Hacc, H|constructor].
  - cbn [wordsFrom]. destruct (CodeUnit.isWhiteSpace c) eqn:E.
    + destruct acc as [|a acc]; [apply IH; constructor|].
      constructor; [apply Hacc, H|apply IH; constructor].
    + apply IH. constructor; assumption.
Qed.

Lemma wordsFrom_concat (s acc : Str.t) :
  concat (wordsFrom acc s) =
  rev acc ++ filter (fun c => negb (CodeUnit.isWhiteSpace c)) s.
Proof.
  revert acc. induction s as [|c s IH]; intros acc.
  - destruct acc; cbn [wordsFrom concat filter]; rewrite ?app_nil_r; reflexivity.
  - cbn [wordsFrom filter]. destruct (CodeUnit.isWhiteSpace c); cbn [negb].
    + destruct acc as [|a acc]; [apply IH|].
      cbn [concat]. rewrite IH. reflexivity.
    + rewrite IH. cbn [rev]. rewrite <- app_assoc. reflexivity.
Qed.

Lemma words_spaces (s : Str.t) : Forall isSpace s -> words s = [].
Proof.
  intros H. unfold words. rewrite <- (app_nil_r s).
  rewrite (TokenizeFacts.wordsFrom_spaces _ H). reflexivity.
Qed.

End WordFacts.

Module PieceFacts.

Import RegExp Reference StringProto.

Section Terms.

Variable text : Str.t.
Variable terms : list Str.t.
Hypothesis nonempty : terms <> [].
Hypothesis noEmptyTerm : Forall (fun t => t <> []) terms.

(** A match of a term that is not empty is not empty. *)
Lemma tiles_capture_width (p : nat) (pieces : list Piece) :
  Tiles (combinedRegExp terms) text p pieces ->
  forall c, In (Capture c) pieces -> exists a b, c = Some (a, b) /\ a < b.
Proof.
  induction 1 as [p Hp Hskip|p q z rest Hpq Hq Hskip Hz Hne Hrest IH]; intros c Hin.
  - destruct Hin as [Hin|[]]. discriminate.
  - destruct (HighlightFacts.matchAt_term text nonempty _ Hz) as [t [Ht ->]].
    cbn [captures map app] in Hin.
    destruct Hin as [Hin|[Hin|Hin]]; [discriminate| |exact (IH _ Hin)].
    injection Hin as <-. exists q, (q + length t). split; [reflexivity|].
    destruct (HighlightFacts.termAt_Some _ _ _ Ht) as [Hint _].
    rewrite Forall_forall in noEmptyTerm. specialize (noEmptyTerm _ Hint).
    destruct t; [congruence|cbn; lia].
Qed.

Lemma isTerm_nonempty (s : Str.t) : App.isTerm terms s = true -> s <> [].
Proof.
  intros H. apply TagFacts.isTerm_iff in H. destruct H as [t [Hin Hlow]].
  rewrite Forall_forall in noEmptyTerm. specialize (noEmptyTerm _ Hin).
  intros ->. destruct t; [congruence|discriminate].
Qed.

End Terms.

End PieceFacts.

(** ** Occurrences, and sessions without overlap *)

Module OccurrenceFacts.

Import RegExp Reference StringProto.

(** Code units the engine takes for equal up to case are word characters
    together. *)
Lemma isWordChar_canonical (a b : ascii) :
  CodeUnit.Canonicalize true a = CodeUnit.Canonicalize true b ->
  CodeUnit.isWordChar a = CodeUnit.isWordChar b.
Proof.
  intros H.
  assert (E : (negb (CodeUnit.Canonicalize true a =? CodeUnit.Canonicalize true b)
               || Bool.eqb (CodeUnit.isWordChar a) (CodeUnit.isWordChar b)) = true).
  { apply (CodeUnitFacts.forall_units2
             (fun a b => negb (CodeUnit.Canonicalize true a =? CodeUnit.Canonicalize true b)
                         || Bool.eqb (CodeUnit.isWordChar a) (CodeUnit.isWordChar b))).
    vm_compute. reflexivity. }
  rewrite H, Nat.eqb_refl in E. simpl in E. apply eqb_prop, E.
Qed.

Lemma headWord_map (s : Str.t) : headWord s = hd false (map CodeUnit.isWordChar s).
Proof. destruct s; reflexivity. Qed.

(** An occurrence of a term has word characters where the term has. *)
Lemma occursAtHead_words (t s : Str.t) :
  occursAtHead t s = true ->
  map CodeUnit.isWordChar (firstn (length t) s) = map CodeUnit.isWordChar t.
Proof.
  revert s. induction t as [|c t IH]; intros [|ch s] H; cbn in *; try reflexivity;
    try discriminate.
  apply andb_true_iff in H. destruct H as [Hc H].
  apply Nat.eqb_eq, isWordChar_canonical in Hc.
  rewrite Hc, (IH _ H). reflexivity.
Qed.

Lemma occursAtHead_head (t s : Str.t) :
  occursAtHead t s = true -> headWord (firstn (length t) s) = headWord t.
Proof. intros H. rewrite !headWord_map, (occursAtHead_words _ _ H). reflexivity. Qed.

Lemma occursAtHead_last (t s : Str.t) :
  occursAtHead t s = true -> headWord (rev (firstn (length t) s)) = headWord (rev t).
Proof.
  intros H. rewrite !headWord_map, !map_rev, (occursAtHead_words _ _ H). reflexivity.
Qed.

Section Matches.

Variable text : Str.t.
Variable terms : list Str.t.
Hypothesis nonempty : terms <> [].

(** Every match the split takes is an occurrence of a term between two
    word boundaries. *)
Lemma tiles_occurrences (p : nat) (pieces : list Piece) :
  Tiles (combinedRegExp terms) text p pieces ->
  forall c, In (Capture c) pieces ->
  exists a t, c = Some (a, a + length t) /\ In t terms /\
              a + length t <= length text /\
              atWordBoundary text a = true /\
              atWordBoundary text (a + length t) = true /\
              occursAtHead t (skipn a text) = true.
Proof.
  induction 1 as [p Hp Hskip|p q z rest Hpq Hq Hskip Hz Hne Hrest IH]; intros c Hin.
  - destruct Hin as [Hin|[]]. discriminate.
  - destruct (HighlightFacts.matchAt_term text nonempty _ Hz) as [t [Ht ->]].
    cbn [captures map app] in Hin.
    destruct Hin as [Hin|[Hin|Hin]]; [discriminate| |exact (IH _ Hin)].
    injection Hin as <-.
    destruct (HighlightFacts.termAt_Some _ _ _ Ht) as [Hint [Hb1 [Hocc Hb2]]].
    exists q, t. repeat split; try assumption.
    apply (HighlightFacts.termAt_inside _ _ Ht). lia.
Qed.

End Matches.

End OccurrenceFacts.

Module OrderFacts.

Import App Reference Order.

Section Session.

Variable number : Type.
Variable copy : Copy.

Lemma run_app (t1 t2 : list (Event number)) (ss : Session number) :
  run copy ss (t1 ++ t2) = (ss' <- run copy ss t1 ;; run copy ss' t2).
Proof.
  revert ss. induction t1 as [|e t1 IH]; intros ss; [reflexivity|].
  cbn [app run]. destruct (step copy ss e) as [ss1|]; [|reflexivity].
  cbn [bind]. apply IH.
Qed.

Lemma oneAtATime_prefix (t1 t2 : list (Event number)) (ss : Session number) :
  oneAtATime copy ss (t1 ++ t2) = true -> oneAtATime copy ss t1 = true.
Proof.
  revert ss. induction t1 as [|e t1 IH]; intros ss H; [reflexivity|].
  cbn [app oneAtATime] in *. apply andb_true_iff in H. destruct H as [H1 H2].
  rewrite H1. cbn [andb]. destruct (step copy ss e) as [ss1|]; [|reflexivity].
  apply IH, H2.
Qed.

Lemma step_latest (ss ss' : Session number) (e : Event number) :
  Latest ss ->
  match e with
  | Submit => inFlight ss = []
  | _ => True
  end ->
  step copy ss e = Some ss' -> Latest ss'.
Proof.
  unfold Latest. intros Hinv Hquiet Hstep. destruct e as [q| |id r|d|]; cbn in Hstep.
  - injection Hstep as <-. exact Hinv.
  - unfold handleSearch in Hstep.
    destruct (Str.trim (query (state ss))); injection Hstep as <-;
      cbn [inFlight state sent]; rewrite Hquiet; cbn.
    + exact I.
    + repeat split; reflexivity.
  - destruct (isInFlight id ss) eqn:E; [|discriminate]. injection Hstep as <-.
    unfold isInFlight in E. cbn [inFlight state].
    destruct (inFlight ss) as [|[i req] [|y l]]; [discriminate| |contradiction].
    cbn in E. rewrite orb_false_r in E. cbn. rewrite E. exact I.
  - injection Hstep as <-. exact Hinv.
  - injection Hstep as <-. exact Hinv.
Qed.

Lemma run_latest (trace : list (Event number)) (ss ss' : Session number) :
  Latest ss -> oneAtATime copy ss trace = true ->
  run copy ss trace = Some ss' -> Latest ss'.
Proof.
  revert ss. induction trace as [|e trace IH]; intros ss Hinv Hone Hrun.
  - injection Hrun as <-. exact Hinv.
  - cbn [run oneAtATime] in *. apply andb_true_iff in Hone. destruct Hone as [H1 H2].
    destruct (step copy ss e) as [ss1|] eqn:E; [|discriminate]. cbn [bind] in Hrun.
    apply (IH ss1); [|exact H2|exact Hrun].
    apply (@step_latest ss ss1 e Hinv); [|exact E].
    destruct e; try exact I. destruct (inFlight ss); [reflexivity|discriminate].
Qed.

(** From a state without error and without results, what a response leaves
    in these two cells is what it leaves from the initial state. *)
Lemma resume_clean (r : Response number) (s : State number) :
  error s = None -> results s = [] ->
  error (resume copy r s) = error (resume copy r initial) /\
  results (resume copy r s) = results (resume copy r initial).
Proof.
  intros He Hr. unfold resume.
  destruct r as [data|]; cbn.
  - destruct (truthy (data_error data)); cbn; [split; reflexivity|].
    destruct (data_results data) as [[|d docs]|]; cbn; auto.
  - auto.
Qed.

(** A response leaves documents without an error, or an error without
    documents. *)
Lemma resume_outcome (r : Response number) :
  (results (resume copy r initial) <> [] /\ error (resume copy r initial) = None) \/
  (results (resume copy r initial) = [] /\ error (resume copy r initial) <> None).
Proof.
  unfold resume. destruct r as [data|]; cbn.
  - destruct (truthy (data_error data)) eqn:E; cbn.
    + right. split; [reflexivity|].
      destruct (data_error data) as [[|c m]|]; discriminate.
    + destruct (data_results data) as [[|d docs]|]; cbn.
      * right. split; [reflexivity|discriminate].
      * left. split; [discriminate|reflexivity].
      * right. split; [reflexivity|discriminate].
  - right. split; [reflexivity|discriminate].
Qed.

(** The response that arrives in a session whose calls do not overlap. *)
Lemma arrive_latest (ss ss' : Session number) (id : nat) (r : Response number) :
  Latest ss -> step copy ss (Arrive id r) = Some ss' ->
  S id = sent ss' /\ inFlight ss' = [] /\ loading (state ss') = false /\
  error (state ss') = error (resume copy r initial) /\
  results (state ss') = results (resume copy r initial).
Proof.
  unfold Latest. intros Hinv Hstep. cbn [step] in Hstep.
  destruct (isInFlight id ss) eqn:E; [|discriminate]. injection Hstep as <-.
  unfold isInFlight in E. cbn [inFlight state sent].
  destruct (inFlight ss) as [|[i req] [|y l]]; [discriminate| |contradiction].
  cbn in E. rewrite orb_false_r in E. cbn [filter fst]. rewrite E. cbn [negb].
  apply Nat.eqb_eq in E. subst i. destruct Hinv as [Hid [He Hr]].
  split; [exact Hid|]. split; [reflexivity|]. split; [reflexivity|].
  apply resume_clean; assumption.
Qed.

End Session.

End OrderFacts.

(** * The statements of the specification *)

Import RegExp Reference StringProto App.

(** For contrast: the same text read as a pattern without the escaping is
    full of operators. *)
Lemma unescaped_is_syntax :
  parsePattern (Str.ofString "a.b*c") =
  Some (Seq (Char "a") (Seq Dot (Seq (Quant 0 None true (Char "b"))
                                    (Seq (Char "c") Empty))), 0).
Proof. vm_compute. reflexivity. Qed.

(** C1.  Whatever the terms, the pattern source that [highlightText] builds
    compiles to the combined matcher, in which every code unit of every term,
    syntax characters included, is a literal: a match at a position is an
    occurrence, code unit by code unit and up to case, of a term between two
    word boundaries.  In particular the term [a.b*c] matches the text [a.b*c]
    as one marked span. *)
Theorem C1_metacharacters_literal (terms : list Str.t) :
  terms <> [] ->
  exists source,
    patternSource terms = Some source /\
    source = Str.ofString "\b(" ++ Str.join (Str.ofString "|") (map escape terms)
             ++ Str.ofString ")\b" /\
    RegExp.create source (Str.ofString "gi") = Some (combinedRegExp terms) /\
    (forall text q,
        matchAt (combinedRegExp terms) text q =
        option_map (matchOf q) (termAt text terms q)) /\
    segment (Str.ofString "a.b*c") [Str.ofString "a.b*c"] =
    Some [(plain, []); (matched, Str.ofString "a.b*c"); (plain, [])].
Proof.
  intros Hne. destruct (EscapeFacts.create_combined Hne) as [source [H1 H2]].
  exists source. split; [exact H1|]. split; [|split; [exact H2|split]].
  - rewrite EscapeFacts.patternSource_escape in H1. injection H1 as <-. reflexivity.
  - intros text q. exact (RegExpFacts.matchAt_combined text q Hne).
  - vm_compute. reflexivity.
Qed.

(** C1 at the terms [a.b*c] and [c++]. *)
Lemma C1_witness :
  exists source,
    patternSource [Str.ofString "a.b*c"; Str.ofString "c++"] = Some source /\
    source = Str.ofString "\b(a\.b\*c|c\+\+)\b" /\
    RegExp.create source (Str.ofString "gi") =
    Some (combinedRegExp [Str.ofString "a.b*c"; Str.ofString "c++"]) /\
    (forall text q,
        matchAt (combinedRegExp [Str.ofString "a.b*c"; Str.ofString "c++"]) text q =
        option_map (matchOf q)
                   (termAt text [Str.ofString "a.b*c"; Str.ofString "c++"] q)) /\
    segment (Str.ofString "a.b*c") [Str.ofString "a.b*c"] =
    Some [(plain, []); (matched, Str.ofString "a.b*c"); (plain, [])].
Proof.
  apply (@C1_metacharacters_literal [Str.ofString "a.b*c"; Str.ofString "c++"]).
  discriminate.
Defined.

(** C2.  For every text and every term list [highlightText] returns, and the
    texts of its spans, put together in order, are the text. *)
Theorem C2_segmentation_lossless (text : Str.t) (terms : list Str.t) :
  exists r,
    highlightText text terms = Some r /\
    concat (map snd (spans r)) = text.
Proof.
  destruct terms as [|t ts].
  - exists (RawText text). split; [reflexivity|]. cbn. apply app_nil_r.
  - assert (Hne : t :: ts <> []) by discriminate.
    destruct (HighlightFacts.highlightText_pieces text Hne) as [pieces [_ [Htiles Hr]]].
    eexists. split; [exact Hr|]. cbn [spans].
    rewrite HighlightFacts.spans_text.
    destruct (HighlightFacts.tiles_text Hne Htiles) as [_ ->].
    apply StrFacts.substring_all.
Qed.

(** C3, as the code has it.  A span is marked exactly when its text is one
    of the terms once both are lower-cased.  Every capture of the split, that
    is every run the combined matcher matched, is an occurrence of a term,
    code unit by code unit under the engine's comparison up to case, between
    two word boundaries.  On text and terms of code units up to U+00FF, which
    are the code units of [Str.t], every capture is marked, and when every
    term starts and ends with a word character no other part is.  [Cat] is
    marked in [The Cat sat], and in [category cat] only the second [cat]. *)
Theorem C3_marked_spans (text : Str.t) (terms : list Str.t) :
  terms <> [] ->
  exists pieces,
    splitPieces (combinedRegExp terms) text = Some pieces /\
    segment text terms = Some (map (spanOf terms text) pieces) /\
    (forall p, In p pieces ->
       (fst (spanOf terms text p) = matched <->
        exists t, In t terms /\ Str.toLowerCase t = Str.toLowerCase (textOf text p))) /\
    (forall c, In (Capture c) pieces ->
       exists a t, c = Some (a, a + length t) /\ In t terms /\
                   a + length t <= length text /\
                   atWordBoundary text a = true /\
                   atWordBoundary text (a + length t) = true /\
                   occursAtHead t (skipn a text) = true) /\
    (forall p, In p pieces -> isCapture p = true ->
       fst (spanOf terms text p) = matched) /\
    (Forall (fun t => wordy t = true) terms ->
     forall p, In p pieces -> isCapture p = false ->
       fst (spanOf terms text p) = plain) /\
    segment (Str.ofString "The Cat sat") [Str.ofString "cat"] =
      Some [(plain, Str.ofString "The "); (matched, Str.ofString "Cat");
            (plain, Str.ofString " sat")] /\
    segment (Str.ofString "category cat") [Str.ofString "cat"] =
      Some [(plain, Str.ofString "category "); (matched, Str.ofString "cat");
            (plain, [])].
Proof.
  intros Hne.
  destruct (HighlightFacts.highlightText_pieces text Hne) as [pieces [Hs [Htiles Hr]]].
  exists pieces. split; [exact Hs|]. split; [unfold segment; rewrite Hr; reflexivity|].
  split; [|split; [|split; [|split; [|split; vm_compute; reflexivity]]]].
  - intros p _. unfold spanOf. cbn [fst]. rewrite <- TagFacts.isTerm_iff.
    destruct (isTerm terms (textOf text p)); split; congruence.
  - exact (OccurrenceFacts.tiles_occurrences Hne Htiles).
  - intros p Hin Hcap.
    pose proof (TagFacts.tiles_captures Hne Htiles) as H.
    rewrite Forall_forall in H. specialize (H p Hin).
    destruct p; [discriminate|]. unfold spanOf. cbn [fst]. rewrite H. reflexivity.
  - intros Hwordy p Hin Hcap.
    pose proof (TagFacts.tiles_fragments Hne Hwordy Htiles (or_introl eq_refl)) as H.
    rewrite Forall_forall in H. specialize (H p Hin).
    destruct p; [|discriminate]. unfold spanOf. cbn [fst]. rewrite H. reflexivity.
Qed.

(** C3 at the text [category cat] and the term [cat]. *)
Lemma C3_witness :
  exists pieces,
    splitPieces (combinedRegExp [Str.ofString "cat"]) (Str.ofString "category cat")
      = Some pieces /\
    segment (Str.ofString "category cat") [Str.ofString "cat"] =
      Some (map (spanOf [Str.ofString "cat"] (Str.ofString "category cat")) pieces) /\
    (forall p, In p pieces ->
       (fst (spanOf [Str.ofString "cat"] (Str.ofString "category cat") p) = matched <->
        exists t, In t [Str.ofString "cat"] /\
                  Str.toLowerCase t =
                  Str.toLowerCase (textOf (Str.ofString "category cat") p))) /\
    (forall c, In (Capture c) pieces ->
       exists a t, c = Some (a, a + length t) /\ In t [Str.ofString "cat"] /\
                   a + length t <= length (Str.ofString "category cat") /\
                   atWordBoundary (Str.ofString "category cat") a = true /\
                   atWordBoundary (Str.ofString "category cat") (a + length t) = true /\
                   occursAtHead t (skipn a (Str.ofString "category cat")) = true) /\
    (forall p, In p pieces -> isCapture p = true ->
       fst (spanOf [Str.ofString "cat"] (Str.ofString "category cat") p) = matched) /\
    (Forall (fun t => wordy t = true) [Str.ofString "cat"] ->
     forall p, In p pieces -> isCapture p = false ->
       fst (spanOf [Str.ofString "cat"] (Str.ofString "category cat") p) = plain) /\
    segment (Str.ofString "The Cat sat") [Str.ofString "cat"] =
      Some [(plain, Str.ofString "The "); (matched, Str.ofString "Cat");
            (plain, Str.ofString " sat")] /\
    segment (Str.ofString "category cat") [Str.ofString "cat"] =
      Some [(plain, Str.ofString "category "); (matched, Str.ofString "cat");
            (plain, [])].
Proof.
  apply (@C3_marked_spans (Str.ofString "category cat") [Str.ofString "cat"]).
  discriminate.
Defined.

(** C3 as stated fails: in the text [c++] the matcher finds no match for
    the term [c++] (no word boundary follows the last [+]), the split returns
    the whole text as one fragment, and that fragment is marked. *)
Lemma C3_counterexample :
  splitPieces (combinedRegExp [Str.ofString "c++"]) (Str.ofString "c++")
    = Some [Fragment 0 3] /\
  segment (Str.ofString "c++") [Str.ofString "c++"]
    = Some [(matched, Str.ofString "c++")].
Proof. split; vm_compute; reflexivity. Qed.

(** C4, as the code has it.  When no term is empty, every match the split
    takes has a positive width and no marked span is empty (plain spans can
    be). *)
Theorem C4_marked_spans_not_empty (text : Str.t) (terms : list Str.t) :
  terms <> [] ->
  Forall (fun t => t <> []) terms ->
  exists pieces sp,
    splitPieces (combinedRegExp terms) text = Some pieces /\
    segment text terms = Some sp /\
    (forall c, In (Capture c) pieces -> exists a b, c = Some (a, b) /\ a < b) /\
    (forall s, In (matched, s) sp -> s <> []).
Proof.
  intros Hne Hterms.
  destruct (HighlightFacts.highlightText_pieces text Hne) as [pieces [Hs [Htiles Hr]]].
  exists pieces, (map (spanOf terms text) pieces).
  split; [exact Hs|]. split; [unfold segment; rewrite Hr; reflexivity|]. split.
  - exact (PieceFacts.tiles_capture_width Hne Hterms Htiles).
  - intros s Hin. apply in_map_iff in Hin. destruct Hin as [p [Hp _]].
    unfold spanOf in Hp.
    destruct (isTerm terms (textOf text p)) eqn:E; [|discriminate].
    injection Hp as <-. exact (PieceFacts.isTerm_nonempty Hterms E).
Qed.

(** C4 at the text [cat] and the term [cat]. *)
Lemma C4_witness :
  exists pieces sp,
    splitPieces (combinedRegExp [Str.ofString "cat"]) (Str.ofString "cat") = Some pieces /\
    segment (Str.ofString "cat") [Str.ofString "cat"] = Some sp /\
    (forall c, In (Capture c) pieces -> exists a b, c = Some (a, b) /\ a < b) /\
    (forall s, In (matched, s) sp -> s <> []).
Proof.
  apply (@C4_marked_spans_not_empty (Str.ofString "cat") [Str.ofString "cat"]).
  - discriminate.
  - repeat constructor; discriminate.
Defined.

(** C4 as stated fails: for the text [cat] and the term [cat] the output
    has an empty span before the match and one after it. *)
Lemma C4_counterexample :
  segment (Str.ofString "cat") [Str.ofString "cat"] =
  Some [(plain, []); (matched, Str.ofString "cat"); (plain, [])].
Proof. vm_compute. reflexivity. Qed.

(** C5, as the code has it.  The pieces tile the text: each match taken is
    at the first index, from the end of the previous one, where the matcher
    succeeds, and the scan goes on from its end, so spans do not overlap and
    together are the text.  At one index the matcher takes the first term of
    the list that occurs there as a whole word, whatever its length. *)
Theorem C5_leftmost_first_listed (text : Str.t) (terms : list Str.t) :
  terms <> [] ->
  exists pieces,
    splitPieces (combinedRegExp terms) text = Some pieces /\
    Tiles (combinedRegExp terms) text 0 pieces /\
    (forall q, matchAt (combinedRegExp terms) text q =
               option_map (matchOf q) (termAt text terms q)) /\
    segment text terms = Some (map (spanOf terms text) pieces) /\
    concat (map (textOf text) pieces) = text.
Proof.
  intros Hne.
  destruct (HighlightFacts.highlightText_pieces text Hne) as [pieces [Hs [Htiles Hr]]].
  exists pieces. split; [exact Hs|]. split; [exact Htiles|]. split; [|split].
  - intros q. exact (RegExpFacts.matchAt_combined text q Hne).
  - unfold segment. rewrite Hr. reflexivity.
  - destruct (HighlightFacts.tiles_text Hne Htiles) as [_ ->].
    apply StrFacts.substring_all.
Qed.

(** C5 at the text [cat.dog] and the terms [cat] and [cat.dog]. *)
Lemma C5_witness :
  exists pieces,
    splitPieces (combinedRegExp [Str.ofString "cat"; Str.ofString "cat.dog"])
                (Str.ofString "cat.dog") = Some pieces /\
    Tiles (combinedRegExp [Str.ofString "cat"; Str.ofString "cat.dog"])
          (Str.ofString "cat.dog") 0 pieces /\
    (forall q, matchAt (combinedRegExp [Str.ofString "cat"; Str.ofString "cat.dog"])
                       (Str.ofString "cat.dog") q =
               option_map (matchOf q)
                 (termAt (Str.ofString "cat.dog")
                         [Str.ofString "cat"; Str.ofString "cat.dog"] q)) /\
    segment (Str.ofString "cat.dog") [Str.ofString "cat"; Str.ofString "cat.dog"] =
      Some (map (spanOf [Str.ofString "cat"; Str.ofString "cat.dog"]
                        (Str.ofString "cat.dog")) pieces) /\
    concat (map (textOf (Str.ofString "cat.dog")) pieces) = Str.ofString "cat.dog".
Proof.
  apply (@C5_leftmost_first_listed (Str.ofString "cat.dog")
           [Str.ofString "cat"; Str.ofString "cat.dog"]).
  discriminate.
Defined.

(** C5 as stated fails: in the text [cat.dog] both [cat] and [cat.dog]
    occur at index 0 as whole words; the matcher takes [cat], the term listed
    first, and the longer candidate is not in the output. *)
Lemma C5_counterexample :
  occursBounded (Str.ofString "cat.dog") 0 (Str.ofString "cat") = true /\
  occursBounded (Str.ofString "cat.dog") 0 (Str.ofString "cat.dog") = true /\
  segment (Str.ofString "cat.dog") [Str.ofString "cat"; Str.ofString "cat.dog"] =
  Some [(plain, []); (matched, Str.ofString "cat"); (plain, Str.ofString ".dog")].
Proof. repeat split; vm_compute; reflexivity. Qed.

(** C6, as the code has it.  In a session in which [handleSearch] is never
    called while an earlier call awaits its response, a response that arrives
    is the response to the request sent last, no request remains in flight
    after it, and the error and the results the state then holds are what
    this response alone gives: documents without an error, its own documents
    when it carries some, or an error without documents.  So the result of
    the last submission is what is shown. *)
Theorem C6_latest_submission_wins (number : Type) (copy : Copy)
    (trace : list (Event number)) (id : nat) (r : Response number)
    (ss : Session number) :
  oneAtATime copy start (trace ++ [Arrive id r]) = true ->
  run copy start (trace ++ [Arrive id r]) = Some ss ->
  S id = sent ss /\
  inFlight ss = [] /\
  loading (state ss) = false /\
  error (state ss) = error (resume copy r initial) /\
  results (state ss) = results (resume copy r initial) /\
  ((results (state ss) <> [] /\ error (state ss) = None) \/
   (results (state ss) = [] /\ error (state ss) <> None)) /\
  (forall docs, r = found docs -> docs <> [] ->
     results (state ss) = docs /\ error (state ss) = None).
Proof.
  intros Hone Hrun. rewrite OrderFacts.run_app in Hrun.
  destruct (run copy start trace) as [ss1|] eqn:E1; [|discriminate].
  cbn [bind run] in Hrun.
  destruct (step copy ss1 (Arrive id r)) as [ss2|] eqn:E2; [|discriminate].
  cbn [bind] in Hrun. injection Hrun as <-.
  assert (Hl : Order.Latest ss1).
  { apply (@OrderFacts.run_latest number copy trace start ss1); [exact I| |exact E1].
    apply (OrderFacts.oneAtATime_prefix _ _ _ _ Hone). }
  destruct (@OrderFacts.arrive_latest number copy ss1 ss2 id r Hl E2)
    as [H1 [H2 [H3 [H4 H5]]]].
  repeat (split; [assumption|]).
  split; [rewrite H4, H5; apply OrderFacts.resume_outcome|].
  intros docs -> Hdocs. rewrite H4, H5.
  rewrite (@SessionFacts.resume_found number copy docs initial Hdocs). split; reflexivity.
Qed.

(** C6 at the query [alpha], answered with one document, and then the query
    [beta], answered with another. *)
Lemma C6_witness :
  S 1 = sent Order.afterBeta /\
  inFlight Order.afterBeta = [] /\
  loading (state Order.afterBeta) = false /\
  error (state Order.afterBeta) = error (resume AppTsx (found [Sample.docB]) initial) /\
  results (state Order.afterBeta)
  = results (resume AppTsx (found [Sample.docB]) initial) /\
  ((results (state Order.afterBeta) <> [] /\ error (state Order.afterBeta) = None) \/
   (results (state Order.afterBeta) = [] /\ error (state Order.afterBeta) <> None)) /\
  (forall docs, found [Sample.docB] = found docs -> docs <> [] ->
     results (state Order.afterBeta) = docs /\ error (state Order.afterBeta) = None).
Proof.
  apply (@C6_latest_submission_wins nat AppTsx
           [Type_ (Str.ofString "alpha"); Submit; Arrive 0 (found [Sample.docA]);
            Type_ (Str.ofString "beta"); Submit]
           1 (found [Sample.docB])).
  - reflexivity.
  - reflexivity.
Defined.

(** C6 as stated fails: the query [alpha] is submitted, then [beta]; the
    response for [beta] arrives, then the one for [alpha]; the session ends
    showing the documents of [alpha], the superseded query. *)
Lemma C6_counterexample :
  exists ss,
    run AppTsx start [Type_ (Str.ofString "alpha"); Submit;
                      Type_ (Str.ofString "beta"); Submit;
                      Arrive 1 (found [Sample.docB]); Arrive 0 (found [Sample.docA])]
      = Some ss /\
    query (state ss) = Str.ofString "beta" /\
    results (state ss) = [Sample.docA] /\
    results (state ss) <> [Sample.docB].
Proof.
  eexists. split; [vm_compute; reflexivity|]. cbn. repeat split. discriminate.
Qed.

(** C7.  The tokenizer returns the words of the query: its maximal runs of
    code units that are not white space, in order.  No word is empty, none
    holds white space, and together they are the query without its white
    space.  A query of white space only, the empty one included, has no
    word. *)
Theorem C7_tokenize (query : Str.t) :
  tokenize query = Some (words query) /\
  Forall (fun w => w <> [] /\ Forall (fun c => CodeUnit.isWhiteSpace c = false) w)
         (words query) /\
  concat (words query) = filter (fun c => negb (CodeUnit.isWhiteSpace c)) query /\
  (Forall (fun c => CodeUnit.isWhiteSpace c = true) query -> tokenize query = Some []) /\
  tokenize (Str.ofString "  foo   bar ") = Some [Str.ofString "foo"; Str.ofString "bar"] /\
  tokenize [] = Some [].
Proof.
  split; [apply TokenizeFacts.tokenize_words|].
  split; [apply WordFacts.wordsFrom_wellformed; constructor|].
  split; [apply (WordFacts.wordsFrom_concat query [])|].
  split; [|split; vm_compute; reflexivity].
  intros H. rewrite TokenizeFacts.tokenize_words, (WordFacts.words_spaces H). reflexivity.
Qed.

(** C8.  [highlightText] and the tokenizer return for every text and every
    term list; without terms [highlightText] returns the text itself, one
    plain span. *)
Theorem C8_total (text : Str.t) (terms : list Str.t) :
  (exists r, highlightText text terms = Some r) /\
  (exists ts, tokenize text = Some ts) /\
  highlightText text [] = Some (RawText text) /\
  segment text [] = Some [(plain, text)] /\
  (exists r, highlightText [] terms = Some r) /\
  (exists r, highlightText (Str.ofString ".*+?^${}()|[]\")
                           [Str.ofString ".*+?^${}()|[]\"; Str.ofString "(("]
             = Some r).
Proof.
  split; [apply HighlightFacts.highlightText_total|]. split.
  - exists (words text). apply TokenizeFacts.tokenize_words.
  - repeat split; try reflexivity; apply HighlightFacts.highlightText_total.
Qed.

(** C9, as the code has it.  Submitting a query that is empty once trimmed
    sets the error message of the empty query and clears the results, sends
    no request and leaves nothing new in flight; it does not touch the
    loading flag or the selected document.  Its message is neither of the two
    messages the component itself words for the outcomes of a request. *)
Theorem C9_empty_query (number : Type) (copy : Copy) (ss : Session number) :
  Str.trim (query (state ss)) = [] ->
  snd (handleSearch (state ss)) = None /\
  exists ss',
    step copy ss Submit = Some ss' /\
    error (state ss') = Some emptyQueryMessage /\
    results (state ss') = [] /\
    inFlight ss' = inFlight ss /\ sent ss' = sent ss /\
    loading (state ss') = loading (state ss) /\
    selectedDoc (state ss') = selectedDoc (state ss) /\
    query (state ss') = query (state ss) /\
    emptyQueryMessage <> noMatchMessage /\
    emptyQueryMessage <> catchMessage copy.
Proof.
  intros H. cbn [step]. rewrite (SessionFacts.handleSearch_empty _ H).
  split; [reflexivity|]. eexists. split; [reflexivity|]. cbn.
  repeat split; try reflexivity; try discriminate.
  destruct copy; discriminate.
Qed.

(** C9 at the initial session, whose query is empty. *)
Lemma C9_witness :
  snd (handleSearch (state (@start nat))) = None /\
  exists ss',
    step AppTsx (@start nat) Submit = Some ss' /\
    error (state ss') = Some emptyQueryMessage /\
    results (state ss') = [] /\
    inFlight ss' = inFlight (@start nat) /\ sent ss' = sent (@start nat) /\
    loading (state ss') = loading (state (@start nat)) /\
    selectedDoc (state ss') = selectedDoc (state (@start nat)) /\
    query (state ss') = query (state (@start nat)) /\
    emptyQueryMessage <> noMatchMessage /\
    emptyQueryMessage <> catchMessage AppTsx.
Proof.
  apply (@C9_empty_query nat AppTsx start). reflexivity.
Defined.

(** C9 as stated fails: the text of an error the backend declares is stored
    as it comes.  A backend that answers the query [alpha] with the error
    [Please enter a query.] leaves, once the field is emptied again, the very
    state in which the local validation leaves the initial session. *)
Lemma C9_counterexample :
  exists validated answered,
    run AppTsx start [Submit] = Some validated /\
    run AppTsx start [Type_ (Str.ofString "alpha"); Submit;
                      Arrive 0 (failed emptyQueryMessage); Type_ []] = Some answered /\
    state validated = Order.refused /\
    state answered = Order.refused.
Proof.
  do 2 eexists. split; [vm_compute; reflexivity|].
  split; [vm_compute; reflexivity|]. split; reflexivity.
Qed.

(** C10, as the code has it.  In a session in which [handleSearch] is never
    called while an earlier call awaits its response, the state never holds
    an error message together with results. *)
Theorem C10_error_excludes_results (number : Type) (copy : Copy)
    (trace : list (Event number)) (ss : Session number) :
  oneAtATime copy start trace = true ->
  run copy start trace = Some ss ->
  error (state ss) = None \/ results (state ss) = [].
Proof.
  intros Hone Hrun. apply SessionFacts.settled_error.
  apply (@SessionFacts.run_settled number copy trace start ss); try assumption.
  left. reflexivity.
Qed.

(** C10 at a session with one submission, whose request fails. *)
Lemma C10_witness :
  error (state Sample.afterFailure) = None \/
  results (state Sample.afterFailure) = [].
Proof.
  apply (@C10_error_excludes_results nat AppTsx
           [Type_ (Str.ofString "alpha"); Submit; Arrive 0 Rejected]).
  - reflexivity.
  - reflexivity.
Defined.

(** C10 as stated fails: a second submission while the first awaits its
    response, an error for the second and then documents for the first leave
    the error message and the documents together. *)
Lemma C10_counterexample :
  exists ss,
    run AppTsx start [Type_ (Str.ofString "alpha"); Submit; Submit;
                      Arrive 1 (failed (Str.ofString "boom"));
                      Arrive 0 (found [Sample.docA])] = Some ss /\
    error (state ss) = Some (Str.ofString "boom") /\
    results (state ss) = [Sample.docA].
Proof. eexists. split; [vm_compute; reflexivity|]. split; reflexivity. Qed.

(** * Beyond the specification: the rest of the component *)

(** ** More on the tokenizer *)

Module TokenizeMore.

Import Reference.

Lemma trimStart_nil_iff (s : Str.t) :
  Str.trimStart s = [] <-> Forall isSpace s.
Proof.
  induction s as [|c s IH]; cbn [Str.trimStart].
  - split; [constructor|reflexivity].
  - destruct (CodeUnit.isWhiteSpace c) eqn:E.
    + rewrite IH. split; [intros H; constructor; assumption|].
      intros H. inversion H; assumption.
    + split; [discriminate|]. intros H. inversion H as [|? ? Hc _]; subst.
      unfold isSpace in Hc. congruence.
Qed.

(** What [trimStart] leaves is empty or starts with a code unit that is not
    white space. *)
Lemma trimStart_spaces (s : Str.t) :
  Forall isSpace (Str.trimStart s) -> Str.trimStart s = [].
Proof.
  induction s as [|c s IH]; cbn [Str.trimStart]; [reflexivity|].
  destruct (CodeUnit.isWhiteSpace c) eqn:E; [exact IH|].
  intros H. inversion H as [|? ? Hc _]; subst. unfold isSpace in Hc. congruence.
Qed.

Lemma trimStart_suffix (s : Str.t) :
  exists ws, Forall isSpace ws /\ s = ws ++ Str.trimStart s.
Proof.
  induction s as [|c s [ws [H1 H2]]]; cbn [Str.trimStart].
  - exists []. split; [constructor|reflexivity].
  - destruct (CodeUnit.isWhiteSpace c) eqn:E.
    + exists (c :: ws). split; [constructor; assumption|]. cbn. f_equal. exact H2.
    + exists []. split; [constructor|reflexivity].
Qed.

(** [trim] leaves nothing exactly of the strings made of white space. *)
Lemma trim_nil_iff (s : Str.t) : Str.trim s = [] <-> Forall isSpace s.
Proof.
  unfold Str.trim. split.
  - intros H. apply (f_equal (@rev ascii)) in H. rewrite rev_involutive in H.
    cbn [rev] in H. apply trimStart_nil_iff in H.
    apply Forall_rev in H. rewrite rev_involutive in H.
    apply trimStart_spaces in H. apply trimStart_nil_iff, H.
  - intros H. apply trimStart_nil_iff in H. rewrite H. reflexivity.
Qed.

Lemma words_nil_iff (s : Str.t) : words s = [] <-> Forall isSpace s.
Proof.
  split; [|apply WordFacts.words_spaces].
  intros H. pose proof (WordFacts.wordsFrom_concat s []) as E.
  fold (words s) in E. rewrite H in E. cbn [concat rev app] in E.
  apply Forall_forall. intros c Hc. unfold isSpace.
  destruct (CodeUnit.isWhiteSpace c) eqn:Ec; [reflexivity|].
  assert (Hin : In c (filter (fun c => negb (CodeUnit.isWhiteSpace c)) s)).
  { apply filter_In. split; [exact Hc|]. rewrite Ec. reflexivity. }
  rewrite <- E in Hin. destruct Hin.
Qed.

(** Words joined by single spaces are read back as they were. *)
Lemma words_join (ws : list Str.t) :
  Forall (fun w => w <> [] /\ Forall notSpace w) ws ->
  words (Str.join [" "%char] ws) = ws.
Proof.
  unfold words. induction 1 as [|w ws [Hne Hw] Hws IH]; [reflexivity|].
  destruct ws as [|w' ws].
  - cbn [Str.join]. rewrite (TokenizeFacts.wordsFrom_last Hw).
    destruct w; [congruence|reflexivity].
  - change (Str.join [" "%char] (w :: w' :: ws))
      with (w ++ [" "%char] ++ Str.join [" "%char] (w' :: ws)).
    rewrite TokenizeFacts.wordsFrom_word;
      [|exact Hw|repeat constructor|discriminate].
    rewrite IH. destruct w; [congruence|reflexivity].
Qed.

(** The words before white space do not depend on what follows it. *)
Lemma wordsFrom_app (a s acc : Str.t) (c : ascii) :
  isSpace c ->
  wordsFrom acc (a ++ c :: s) = wordsFrom acc a ++ wordsFrom [] s.
Proof.
  intros Hc. revert acc. induction a as [|x a IH]; intros acc.
  - cbn [app wordsFrom]. rewrite Hc. destruct acc; reflexivity.
  - cbn [app wordsFrom]. destruct (CodeUnit.isWhiteSpace x).
    + destruct acc; rewrite IH; reflexivity.
    + apply IH.
Qed.

Lemma words_app (a ws b : Str.t) :
  Forall isSpace ws -> ws <> [] ->
  words (a ++ ws ++ b) = words a ++ words b.
Proof.
  intros Hws Hne. destruct ws as [|c ws]; [congruence|].
  inversion Hws as [|? ? Hc Hws']; subst. unfold words.
  cbn [app]. rewrite (wordsFrom_app a (ws ++ b) [] Hc).
  rewrite (TokenizeFacts.wordsFrom_spaces _ Hws'). reflexivity.
Qed.

Lemma words_trim (s : Str.t) : words (Str.trim s) = words s.
Proof.
  destruct (trimStart_suffix s) as [ws [Hws Hs]].
  destruct (trimStart_suffix (rev (Str.trimStart s))) as [ws' [Hws' Hs']].
  assert (E : Str.trimStart s = Str.trim s ++ rev ws').
  { unfold Str.trim. rewrite <- rev_app_distr, <- Hs'. symmetry. apply rev_involutive. }
  rewrite Hs at 2. unfold words at 2.
  rewrite (TokenizeFacts.wordsFrom_spaces _ Hws), E.
  destruct (rev ws') as [|c r] eqn:Er; [rewrite app_nil_r; reflexivity|].
  assert (Hr : Forall isSpace (c :: r)) by (rewrite <- Er; apply Forall_rev, Hws').
  inversion Hr as [|? ? Hc Hr']; subst.
  rewrite (wordsFrom_app (Str.trim s) r [] Hc).
  rewrite <- (app_nil_r r), (TokenizeFacts.wordsFrom_spaces _ Hr').
  cbn [wordsFrom]. rewrite app_nil_r. reflexivity.
Qed.

End TokenizeMore.

(** ** More on the highlighter *)

Module HighlightMore.

Import RegExp Reference StringProto.

(** The split depends on the RegExp through its matches only. *)
Lemma splitLoop_ext (R1 R2 : RegExp.t) (subject : Str.t) :
  (forall q, matchAt R1 subject q = matchAt R2 subject q) ->
  forall fuel p q, splitLoop R1 subject fuel p q = splitLoop R2 subject fuel p q.
Proof.
  intros H. induction fuel as [|fuel IH]; intros p q; [reflexivity|].
  cbn [splitLoop]. rewrite H.
  destruct (q <? length subject); [|reflexivity].
  destruct (matchAt R2 subject q) as [z|]; [|apply IH].
  destruct (Nat.min (endIndex z) (length subject) =? p); [apply IH|].
  rewrite IH. reflexivity.
Qed.

Lemma splitPieces_ext (R1 R2 : RegExp.t) (subject : Str.t) :
  (forall q, matchAt R1 subject q = matchAt R2 subject q) ->
  splitPieces R1 subject = splitPieces R2 subject.
Proof.
  intros H. unfold splitPieces. rewrite H, (splitLoop_ext _ _ _ H). reflexivity.
Qed.

(** Two term lists that give the same matches and the same mark test give
    the same rendering. *)
Lemma highlightText_ext (text : Str.t) (terms1 terms2 : list Str.t) :
  terms1 <> [] -> terms2 <> [] ->
  (forall q, option_map (matchOf q) (termAt text terms1 q) =
             option_map (matchOf q) (termAt text terms2 q)) ->
  (forall s, App.isTerm terms1 s = App.isTerm terms2 s) ->
  App.highlightText text terms1 = App.highlightText text terms2.
Proof.
  intros H1 H2 Hm Ht.
  destruct (HighlightFacts.highlightText_pieces text H1) as [p1 [Hs1 [_ Hr1]]].
  destruct (HighlightFacts.highlightText_pieces text H2) as [p2 [Hs2 [_ Hr2]]].
  rewrite (@splitPieces_ext (combinedRegExp terms1) (combinedRegExp terms2)) in Hs1.
  - rewrite Hs1 in Hs2. injection Hs2 as <-. rewrite Hr1, Hr2. do 2 f_equal.
    apply map_ext. intros pc. unfold spanOf. rewrite Ht. reflexivity.
  - intros q. rewrite !RegExpFacts.matchAt_combined by assumption. apply Hm.
Qed.

(** [highlightText] returns, and its spans put together are the text. *)
Lemma highlightText_lossless (text : Str.t) (terms : list Str.t) :
  exists r,
    App.highlightText text terms = Some r /\
    concat (map snd (App.spans r)) = text.
Proof.
  destruct terms as [|t ts].
  - exists (App.RawText text). split; [reflexivity|]. cbn. apply app_nil_r.
  - assert (Hne : t :: ts <> []) by discriminate.
    destruct (HighlightFacts.highlightText_pieces text Hne) as [pieces [_ [Htiles Hr]]].
    eexists. split; [exact Hr|]. cbn [App.spans].
    rewrite HighlightFacts.spans_text.
    destruct (HighlightFacts.tiles_text Hne Htiles) as [_ ->].
    apply StrFacts.substring_all.
Qed.

(** *** Lists *)

Lemma find_map {A B} (f : B -> bool) (g : A -> B) (l : list A) :
  find f (map g l) = option_map g (find (fun x => f (g x)) l).
Proof.
  induction l as [|a l IH]; [reflexivity|]. cbn. destruct (f (g a)); [reflexivity|exact IH].
Qed.

Lemma find_ext {A} (f g : A -> bool) (l : list A) :
  (forall x, f x = g x) -> find f l = find g l.
Proof.
  intros H. induction l as [|a l IH]; [reflexivity|]. cbn. rewrite H, IH. reflexivity.
Qed.

(** *** A term that is there already *)

Lemma find_repeated {A} (p : A -> bool) (l1 l2 : list A) (a' : A) :
  (exists a, In a l1 /\ p a = p a') ->
  find p (l1 ++ a' :: l2) = find p (l1 ++ l2).
Proof.
  intros [a [Hin Hp]]. induction l1 as [|x l1 IH]; [destruct Hin|].
  cbn [app find]. destruct (p x) eqn:Ex; [reflexivity|].
  destruct Hin as [->|Hin]; [|exact (IH Hin)].
  clear IH. induction l1 as [|y l1 IH]; cbn [app find].
  - rewrite <- Hp, Ex. reflexivity.
  - destruct (p y); [reflexivity|exact IH].
Qed.

Lemma existsb_repeated {A} (p : A -> bool) (l1 l2 : list A) (a' : A) :
  (exists a, In a l1 /\ p a = p a') ->
  existsb p (l1 ++ a' :: l2) = existsb p (l1 ++ l2).
Proof.
  intros [a [Hin Hp]]. rewrite !existsb_app. cbn [existsb].
  destruct (existsb p l1) eqn:E; [reflexivity|]. cbn [orb].
  assert (Ha : p a = false).
  { destruct (p a) eqn:Ea; [|reflexivity].
    assert (existsb p l1 = true) by (apply existsb_exists; exists a; auto). congruence. }
  rewrite <- Hp, Ha. reflexivity.
Qed.

(** *** Where matches lie *)

Section Matches.

Variable text : Str.t.
Variable terms : list Str.t.
Hypothesis nonempty : terms <> [].

(** Where the matcher matches nowhere the split returns the text whole. *)
Lemma tiles_no_match (p : nat) (pieces : list Piece) :
  (forall q, matchAt (combinedRegExp terms) text q = None) ->
  Tiles (combinedRegExp terms) text p pieces ->
  pieces = [Fragment p (length text)].
Proof.
  intros Hnone H. destruct H as [p Hp Hskip|p q z rest Hpq Hq Hskip Hz Hne Hrest].
  - reflexivity.
  - rewrite Hnone in Hz. discriminate.
Qed.

End Matches.

(** A text without word characters has no word boundary. *)
Lemma no_boundary (text : Str.t) (q : nat) :
  Forall (fun c => CodeUnit.isWordChar c = false) text ->
  atWordBoundary text q = false.
Proof.
  intros H. rewrite Forall_forall in H.
  assert (Hat : forall e, wordCharAt text e = false).
  { intros e. unfold wordCharAt. destruct (nth_error text e) as [c|] eqn:E; [|reflexivity].
    apply H. eapply nth_error_In, E. }
  unfold atWordBoundary. rewrite Hat. destruct q; cbn [wordCharBefore];
    [reflexivity|rewrite Hat; reflexivity].
Qed.

End HighlightMore.

(** ** The case of the letters of the terms *)

Module LettersFacts.

Import RegExp Reference StringProto Letters.

Lemma canonical_lowerLetter (c : ascii) :
  CodeUnit.Canonicalize true (lowerLetter c) = CodeUnit.Canonicalize true c.
Proof.
  apply Nat.eqb_eq.
  apply (CodeUnitFacts.forall_units
           (fun c => CodeUnit.Canonicalize true (lowerLetter c)
                     =? CodeUnit.Canonicalize true c)).
  vm_compute. reflexivity.
Qed.

Lemma lower_lowerLetter (c : ascii) :
  CodeUnit.toLowerCase (lowerLetter c) = CodeUnit.toLowerCase c.
Proof.
  apply Ascii.eqb_eq.
  apply (CodeUnitFacts.forall_units
           (fun c => Ascii.eqb (CodeUnit.toLowerCase (lowerLetter c))
                               (CodeUnit.toLowerCase c))).
  vm_compute. reflexivity.
Qed.

Lemma toLowerCase_lowerLetters (t : Str.t) :
  Str.toLowerCase (lowerLetters t) = Str.toLowerCase t.
Proof.
  unfold Str.toLowerCase, lowerLetters. rewrite map_map. apply map_ext, lower_lowerLetter.
Qed.

Lemma length_lowerLetters (t : Str.t) : length (lowerLetters t) = length t.
Proof. apply length_map. Qed.

(** Whether a term occurs somewhere does not depend on the case of its
    letters. *)
Lemma occursAtHead_lowerLetters (t s : Str.t) :
  occursAtHead (lowerLetters t) s = occursAtHead t s.
Proof.
  revert s. induction t as [|c t IH]; intros s; [reflexivity|].
  destruct s as [|ch s]; [reflexivity|].
  cbn [lowerLetters map occursAtHead]. rewrite canonical_lowerLetter.
  f_equal. apply IH.
Qed.

Lemma occursBounded_lowerLetters (text : Str.t) (q : nat) (t : Str.t) :
  occursBounded text q (lowerLetters t) = occursBounded text q t.
Proof.
  unfold occursBounded.
  rewrite occursAtHead_lowerLetters, length_lowerLetters. reflexivity.
Qed.

Lemma termAt_lowerLetters (text : Str.t) (terms : list Str.t) (q : nat) :
  option_map (matchOf q) (termAt text (map lowerLetters terms) q) =
  option_map (matchOf q) (termAt text terms q).
Proof.
  unfold termAt. destruct (atWordBoundary text q); [|reflexivity].
  rewrite HighlightMore.find_map.
  rewrite (HighlightMore.find_ext (fun x => occursBounded text q (lowerLetters x))
                    (occursBounded text q))
    by (intros t; apply occursBounded_lowerLetters).
  destruct (find (occursBounded text q) terms) as [t|]; [|reflexivity].
  cbn [option_map]. unfold matchOf. rewrite length_lowerLetters. reflexivity.
Qed.

Lemma isTerm_lowerLetters (terms : list Str.t) (s : Str.t) :
  App.isTerm (map lowerLetters terms) s = App.isTerm terms s.
Proof.
  unfold App.isTerm. induction terms as [|t terms IH]; [reflexivity|].
  cbn [map existsb]. rewrite toLowerCase_lowerLetters, IH. reflexivity.
Qed.

End LettersFacts.

(** ** More on the session *)

Module SessionMore.

Import App Reference Ui.

Section Session.

Variable number : Type.
Variable copy : Copy.

(** An action is a step of the session or changes nothing. *)
Lemma act_step (ss ss' : Session number) (a : Action number) :
  act copy ss a = Some ss' ->
  ss' = ss \/ exists e, step copy ss e = Some ss'.
Proof.
  destruct a as [q| |key| |i| |id r]; cbn [act]; intros H.
  - right. eexists. exact H.
  - destruct (clearShown (state ss)); [|discriminate]. right. eexists. exact H.
  - destruct (Str.eqb key (Str.ofString "Enter")).
    + right. eexists. exact H.
    + left. congruence.
  - destruct (loading (state ss)).
    + left. congruence.
    + right. eexists. exact H.
  - destruct (nth_error (shownResults (state ss)) i); [|discriminate].
    right. eexists. exact H.
  - destruct (dialogOpen (state ss)); [|discriminate]. right. eexists. exact H.
  - right. eexists. exact H.
Qed.

(** A property that every step keeps holds after every sequence of
    actions. *)
Lemma perform_invariant (P : Session number -> Prop) :
  (forall ss e ss', P ss -> step copy ss e = Some ss' -> P ss') ->
  forall actions ss ss', P ss -> perform copy ss actions = Some ss' -> P ss'.
Proof.
  intros Hstep. induction actions as [|a actions IH]; intros ss ss' HP H.
  - injection H as <-. exact HP.
  - cbn [perform] in H. destruct (act copy ss a) as [ss1|] eqn:E; [|discriminate].
    cbn [bind] in H. apply (IH ss1); [|exact H].
    destruct (act_step _ _ E) as [->|[e He]]; [exact HP|exact (Hstep _ _ _ HP He)].
Qed.

(** *** The loading flag *)

Lemma step_loading (ss ss' : Session number) (e : Event number) :
  (loading (state ss) = false \/ inFlight ss <> []) ->
  step copy ss e = Some ss' ->
  loading (state ss') = false \/ inFlight ss' <> [].
Proof.
  intros Hinv H. destruct e as [q| |id r|d|]; cbn [step] in H.
  - injection H as <-. exact Hinv.
  - unfold handleSearch in H. destruct (Str.trim (query (state ss)));
      injection H as <-; cbn [state inFlight]; [exact Hinv|].
    right. intros E. apply (f_equal (@length _)) in E.
    rewrite length_app in E. cbn in E. lia.
  - destruct (isInFlight id ss); [|discriminate]. injection H as <-. left. reflexivity.
  - injection H as <-. exact Hinv.
  - injection H as <-. exact Hinv.
Qed.

(** *** The error message *)

Lemma catchMessage_truthy : truthy (Some (catchMessage copy)) = true.
Proof. destruct copy; reflexivity. Qed.

Lemma resume_error (r : Response number) (s : State number) :
  (error s = None \/ truthy (error s) = true) ->
  error (resume copy r s) = None \/ truthy (error (resume copy r s)) = true.
Proof.
  intros H. unfold resume. destruct r as [data|]; cbn.
  - destruct (truthy (data_error data)) eqn:E; cbn; [right; exact E|].
    destruct (data_results data) as [[|d docs]|]; cbn;
      [right; reflexivity|exact H|right; apply catchMessage_truthy].
  - right. apply catchMessage_truthy.
Qed.

Lemma step_error (ss ss' : Session number) (e : Event number) :
  (error (state ss) = None \/ truthy (error (state ss)) = true) ->
  step copy ss e = Some ss' ->
  error (state ss') = None \/ truthy (error (state ss')) = true.
Proof.
  intros Hinv H. destruct e as [q| |id r|d|]; cbn [step] in H.
  - injection H as <-. exact Hinv.
  - unfold handleSearch in H. destruct (Str.trim (query (state ss)));
      injection H as <-; cbn; [right|left]; reflexivity.
  - destruct (isInFlight id ss); [|discriminate]. injection H as <-.
    cbn [state]. apply resume_error, Hinv.
  - injection H as <-. exact Hinv.
  - injection H as <-. exact Hinv.
Qed.

(** *** Where results come from *)

Lemma resume_results (r : Response number) (s : State number) :
  results (resume copy r s) = results s \/ results (resume copy r s) = [] \/
  exists data, r = Resolved data /\ data_results data = Some (results (resume copy r s)).
Proof.
  unfold resume. destruct r as [data|]; cbn; [|left; reflexivity].
  destruct (truthy (data_error data)); cbn; [right; left; reflexivity|].
  destruct (data_results data) as [[|d docs]|] eqn:E; cbn;
    [right; left; reflexivity| |left; reflexivity].
  right. right. exists data. split; [reflexivity|exact E].
Qed.

Lemma act_results (ss ss' : Session number) (a : Action number) :
  act copy ss a = Some ss' ->
  results (state ss') = results (state ss) \/ results (state ss') = [] \/
  carried (results (state ss')) a.
Proof.
  destruct a as [q| |key| |i| |id r]; cbn [act]; intros H.
  - injection H as <-. left. reflexivity.
  - destruct (clearShown (state ss)); [|discriminate]. injection H as <-. left. reflexivity.
  - destruct (Str.eqb key (Str.ofString "Enter")); [|left; congruence].
    cbn [step] in H. unfold handleSearch in H.
    destruct (Str.trim (query (state ss))); injection H as <-; right; left; reflexivity.
  - destruct (loading (state ss)); [left; congruence|].
    cbn [step] in H. unfold handleSearch in H.
    destruct (Str.trim (query (state ss))); injection H as <-; right; left; reflexivity.
  - destruct (nth_error (shownResults (state ss)) i); [|discriminate].
    injection H as <-. left. reflexivity.
  - destruct (dialogOpen (state ss)); [|discriminate]. injection H as <-. left. reflexivity.
  - cbn [step] in H. destruct (isInFlight id ss); [|discriminate]. injection H as <-.
    cbn [state]. destruct (resume_results r (state ss)) as [E|[E|[data [-> E]]]]; auto.
    right. right. exists id, data. split; [reflexivity|exact E].
Qed.

Lemma perform_results (actions : list (Action number)) (ss ss' : Session number) :
  perform copy ss actions = Some ss' ->
  results (state ss') = results (state ss) \/ results (state ss') = [] \/
  exists a, In a actions /\ carried (results (state ss')) a.
Proof.
  revert ss. induction actions as [|a actions IH]; intros ss H.
  - injection H as <-. left. reflexivity.
  - cbn [perform] in H. destruct (act copy ss a) as [ss1|] eqn:E; [|discriminate].
    cbn [bind] in H. destruct (IH _ H) as [H1|[H1|[b [Hb Hc]]]].
    + rewrite H1. destruct (act_results _ _ E) as [H2|[H2|H2]]; auto.
      right. right. exists a. split; [left; reflexivity|exact H2].
    + right. left. exact H1.
    + right. right. exists b. split; [right; exact Hb|exact Hc].
Qed.

(** *** Calls that do not overlap *)

Lemma submit_calm (ss ss' : Session number) :
  Calm ss -> loading (state ss) = false ->
  step copy ss Submit = Some ss' -> Calm ss'.
Proof.
  unfold Calm. intros Hc Hl H.
  destruct (inFlight ss) as [|x [|y l]] eqn:Ein; [| |contradiction].
  - cbn [step] in H. unfold handleSearch in H.
    destruct (Str.trim (query (state ss))); injection H as <-; cbn; rewrite Ein; cbn.
    + split; [exact Hl|right; reflexivity].
    + repeat split; reflexivity.
  - destruct Hc as [Hc _]. congruence.
Qed.

Lemma act_calm (ss ss' : Session number) (a : Action number) :
  Calm ss ->
  match a with
  | Key key => Str.eqb key (Str.ofString "Enter") && loading (state ss) = false
  | _ => True
  end ->
  act copy ss a = Some ss' -> Calm ss'.
Proof.
  intros Hc Hidle H. destruct a as [q| |key| |i| |id r]; cbn [act] in H.
  - injection H as <-. exact Hc.
  - destruct (clearShown (state ss)); [|discriminate]. injection H as <-. exact Hc.
  - destruct (Str.eqb key (Str.ofString "Enter")); [|congruence].
    cbn [andb] in Hidle. exact (@submit_calm ss ss' Hc Hidle H).
  - destruct (loading (state ss)) eqn:El; [congruence|]. exact (@submit_calm ss ss' Hc El H).
  - destruct (nth_error (shownResults (state ss)) i); [|discriminate].
    injection H as <-. exact Hc.
  - destruct (dialogOpen (state ss)); [|discriminate]. injection H as <-. exact Hc.
  - cbn [step] in H. destruct (isInFlight id ss) eqn:E; [|discriminate].
    injection H as <-. unfold Calm in *. unfold isInFlight in E. cbn [inFlight state].
    destruct (inFlight ss) as [|x [|y l]]; [discriminate| |contradiction].
    cbn in E. rewrite orb_false_r in E. cbn. rewrite E. cbn.
    destruct Hc as [_ [He Hr]]. split; [reflexivity|].
    apply SessionFacts.resume_settled; assumption.
Qed.

Lemma perform_calm (actions : list (Action number)) (ss ss' : Session number) :
  Calm ss -> enterWhenIdle copy ss actions = true ->
  perform copy ss actions = Some ss' -> Calm ss'.
Proof.
  revert ss. induction actions as [|a actions IH]; intros ss Hc Hidle H.
  - injection H as <-. exact Hc.
  - cbn [perform enterWhenIdle] in *. apply andb_true_iff in Hidle.
    destruct Hidle as [H1 H2].
    destruct (act copy ss a) as [ss1|] eqn:E; [|discriminate]. cbn [bind] in H.
    apply (IH ss1); [|exact H2|exact H].
    apply (@act_calm ss ss1 a Hc); [|exact E].
    destruct a; try exact I. apply negb_true_iff, H1.
Qed.

End Session.

End SessionMore.

(** ** The properties *)

Import RegExp Reference StringProto App Ui.

(** X1.  [handleSearch] sends no request exactly when the tokenizer finds
    no term in the query: the validation by [trim] and the tokenizer agree on
    which queries are empty. *)
Theorem X1_request_iff_terms (number : Type) (s : State number) :
  snd (handleSearch s) = None <-> tokenize (query s) = Some [].
Proof.
  rewrite TokenizeFacts.tokenize_words.
  assert (H : snd (handleSearch s) = None <-> Str.trim (query s) = []).
  { unfold handleSearch. destruct (Str.trim (query s)); cbn; split; congruence. }
  rewrite H, TokenizeMore.trim_nil_iff, <- TokenizeMore.words_nil_iff.
  split; [intros ->; reflexivity|intros E; injection E as ->; reflexivity].
Qed.

(** X2.  Joining the terms of a query with single spaces and tokenizing the
    result gives the same terms again. *)
Theorem X2_tokenize_join (query : Str.t) :
  (terms <- tokenize query ;; tokenize (Str.join (Str.ofString " ") terms))
  = tokenize query.
Proof.
  rewrite TokenizeFacts.tokenize_words. cbn [bind].
  rewrite TokenizeFacts.tokenize_words. f_equal.
  apply TokenizeMore.words_join.
  apply WordFacts.wordsFrom_wellformed. constructor.
Qed.

(** X3.  The terms of two texts put together with white space between them
    are the terms of the first followed by the terms of the second. *)
Theorem X3_tokenize_app (a ws b : Str.t) :
  Forall (fun c => CodeUnit.isWhiteSpace c = true) ws -> ws <> [] ->
  tokenize (a ++ ws ++ b) =
  (ta <- tokenize a ;; tb <- tokenize b ;; Some (ta ++ tb)).
Proof.
  intros Hws Hne. rewrite !TokenizeFacts.tokenize_words. cbn [bind]. f_equal.
  apply TokenizeMore.words_app; assumption.
Qed.

(** X3 at [foo], a tab and a space, [bar baz]. *)
Lemma X3_witness :
  tokenize (Str.ofString "foo" ++ [ascii_of_nat 9; " "%char] ++ Str.ofString "bar baz") =
  (ta <- tokenize (Str.ofString "foo") ;;
   tb <- tokenize (Str.ofString "bar baz") ;; Some (ta ++ tb)).
Proof.
  apply (@X3_tokenize_app (Str.ofString "foo") [ascii_of_nat 9; " "%char]
           (Str.ofString "bar baz")).
  - repeat constructor.
  - discriminate.
Defined.

(** X4.  The tokenizer gives the trimmed query, which [handleSearch] tests,
    the terms of the query itself. *)
Theorem X4_tokenize_trim (query : Str.t) :
  tokenize (Str.trim query) = tokenize query.
Proof.
  rewrite !TokenizeFacts.tokenize_words. f_equal. apply TokenizeMore.words_trim.
Qed.

(** X5.  The case of the letters A-Z of the terms does not matter: with
    every such letter of every term replaced by its small letter the
    rendering is the same, for every text. *)
Theorem X5_terms_letter_case (text : Str.t) (terms : list Str.t) :
  highlightText text (map Letters.lowerLetters terms) = highlightText text terms.
Proof.
  destruct terms as [|t ts]; [reflexivity|].
  apply HighlightMore.highlightText_ext; try discriminate.
  - intros q. apply LettersFacts.termAt_lowerLetters.
  - intros s. apply LettersFacts.isTerm_lowerLetters.
Qed.

(** X6.  A term that is in the list a second time changes nothing: the
    rendering is that of the list without the repetition. *)
Theorem X6_repeated_term (text : Str.t) (l1 l2 : list Str.t) (t : Str.t) :
  In t l1 ->
  highlightText text (l1 ++ t :: l2) = highlightText text (l1 ++ l2).
Proof.
  intros Hin.
  assert (Hne : l1 <> []) by (intros ->; destruct Hin).
  apply HighlightMore.highlightText_ext.
  - destruct l1; [congruence|discriminate].
  - destruct l1; [congruence|discriminate].
  - intros q. unfold termAt. destruct (atWordBoundary text q); [|reflexivity].
    rewrite (@HighlightMore.find_repeated _ (occursBounded text q) l1 l2 t);
      [reflexivity|].
    exists t. split; [exact Hin|reflexivity].
  - intros s. unfold isTerm.
    apply (@HighlightMore.existsb_repeated _
             (fun x => Str.eqb (Str.toLowerCase x) (Str.toLowerCase s)) l1 l2 t).
    exists t. split; [exact Hin|reflexivity].
Qed.

(** X6 at the terms [cat], [dog], [cat]. *)
Lemma X6_witness :
  highlightText (Str.ofString "Cat and dog")
    ([Str.ofString "cat"; Str.ofString "dog"] ++ Str.ofString "cat" :: []) =
  highlightText (Str.ofString "Cat and dog")
    ([Str.ofString "cat"; Str.ofString "dog"] ++ []).
Proof.
  apply (@X6_repeated_term (Str.ofString "Cat and dog")
           [Str.ofString "cat"; Str.ofString "dog"] [] (Str.ofString "cat")).
  left. reflexivity.
Defined.

(** X7.  When every term starts and ends with a word character, every match
    the split takes is a whole word: it is not empty, lies inside the text,
    is an occurrence of a term, code unit by code unit under the engine's
    comparison up to case, and has no word character right before it or right
    after it. *)
Theorem X7_whole_word (text : Str.t) (terms : list Str.t) :
  terms <> [] ->
  Forall (fun t => wordy t = true) terms ->
  exists pieces,
    splitPieces (combinedRegExp terms) text = Some pieces /\
    segment text terms = Some (map (spanOf terms text) pieces) /\
    forall a b, In (Capture (Some (a, b))) pieces ->
      a < b <= length text /\
      wordCharBefore text a = false /\
      wordCharAt text b = false /\
      exists t, In t terms /\ b = a + length t /\
                occursAtHead t (skipn a text) = true.
Proof.
  intros Hne Hwordy.
  destruct (HighlightFacts.highlightText_pieces text Hne) as [pieces [Hs [Htiles Hr]]].
  exists pieces. split; [exact Hs|]. split; [unfold segment; rewrite Hr; reflexivity|].
  intros a b Hin.
  destruct (OccurrenceFacts.tiles_occurrences Hne Htiles _ Hin)
    as [a' [t [E [Hint [Hlen [Hb1 [Hb2 Hocc]]]]]]].
  injection E as <- ->.
  rewrite Forall_forall in Hwordy. specialize (Hwordy _ Hint).
  unfold wordy in Hwordy. apply andb_true_iff in Hwordy. destruct Hwordy as [Hw1 Hw2].
  assert (Hlt : a < a + length t) by (destruct t; [discriminate|cbn; lia]).
  assert (Hsub : Str.substring text a (a + length t) = firstn (length t) (skipn a text)).
  { unfold Str.substring. replace (a + length t - a) with (length t) by lia. reflexivity. }
  split; [lia|]. split; [|split].
  - unfold atWordBoundary in Hb1.
    rewrite <- (TagFacts.substring_head text Hlt) in Hb1.
    rewrite Hsub, (OccurrenceFacts.occursAtHead_head _ _ Hocc), Hw1 in Hb1.
    destruct (wordCharBefore text a); [discriminate|reflexivity].
  - unfold atWordBoundary in Hb2.
    rewrite <- (TagFacts.substring_last text Hlt Hlen) in Hb2.
    rewrite Hsub, (OccurrenceFacts.occursAtHead_last _ _ Hocc), Hw2 in Hb2.
    destruct (wordCharAt text (a + length t)); [discriminate|reflexivity].
  - exists t. repeat split; assumption.
Qed.

(** X7 at the text [category cat] and the term [cat]. *)
Lemma X7_witness :
  exists pieces,
    splitPieces (combinedRegExp [Str.ofString "cat"]) (Str.ofString "category cat")
      = Some pieces /\
    segment (Str.ofString "category cat") [Str.ofString "cat"] =
      Some (map (spanOf [Str.ofString "cat"] (Str.ofString "category cat")) pieces) /\
    forall a b, In (Capture (Some (a, b))) pieces ->
      a < b <= length (Str.ofString "category cat") /\
      wordCharBefore (Str.ofString "category cat") a = false /\
      wordCharAt (Str.ofString "category cat") b = false /\
      exists t, In t [Str.ofString "cat"] /\ b = a + length t /\
                occursAtHead t (skipn a (Str.ofString "category cat")) = true.
Proof.
  apply (@X7_whole_word (Str.ofString "category cat") [Str.ofString "cat"]).
  - discriminate.
  - repeat constructor.
Defined.

(** X8.  A text without word characters, the empty text for one, is never
    split: whatever the terms, the rendering is one span with the whole
    text, marked only if the text as a whole is a term up to case. *)
Theorem X8_no_word_character (text : Str.t) (terms : list Str.t) :
  terms <> [] ->
  Forall (fun c => CodeUnit.isWordChar c = false) text ->
  highlightText text terms =
  Some (Elements [(if isTerm terms text then matched else plain, text)]).
Proof.
  intros Hne Htext.
  destruct (HighlightFacts.highlightText_pieces text Hne) as [pieces [_ [Htiles Hr]]].
  rewrite Hr. do 2 f_equal.
  rewrite (HighlightMore.tiles_no_match (terms:=terms) (text:=text) (p:=0)
             (pieces:=pieces)); [|intros q|exact Htiles].
  - cbn [map]. unfold spanOf, textOf. cbn [pieceValue].
    rewrite StrFacts.substring_all. reflexivity.
  - rewrite RegExpFacts.matchAt_combined by exact Hne.
    unfold termAt. rewrite (HighlightMore.no_boundary q Htext). reflexivity.
Qed.

(** X8 at the text [+-*/ (!)] and the terms [+] and [cat]. *)
Lemma X8_witness :
  highlightText (Str.ofString "+-*/ (!)") [Str.ofString "+"; Str.ofString "cat"] =
  Some (Elements [(if isTerm [Str.ofString "+"; Str.ofString "cat"]
                             (Str.ofString "+-*/ (!)") then matched else plain,
                   Str.ofString "+-*/ (!)")]).
Proof.
  apply (@X8_no_word_character (Str.ofString "+-*/ (!)")
           [Str.ofString "+"; Str.ofString "cat"]).
  - discriminate.
  - repeat constructor.
Defined.

Module DialogFacts.

Lemma isWhiteSpace_lower (c : ascii) :
  CodeUnit.isWhiteSpace (CodeUnit.toLowerCase c) = CodeUnit.isWhiteSpace c.
Proof.
  apply eqb_prop.
  apply (CodeUnitFacts.forall_units
           (fun c => Bool.eqb (CodeUnit.isWhiteSpace (CodeUnit.toLowerCase c))
                              (CodeUnit.isWhiteSpace c))).
  vm_compute. reflexivity.
Qed.

(** A string with the lower case of a string without white space has no
    white space. *)
Lemma notSpace_lower (a b : Str.t) :
  Str.toLowerCase a = Str.toLowerCase b ->
  Forall notSpace a -> Forall notSpace b.
Proof.
  revert b. induction a as [|c a IH]; intros [|d b] H Ha; cbn in H;
    try discriminate; [constructor|].
  injection H as Hc H. inversion Ha as [|? ? Hc' Ha']; subst.
  constructor; [|exact (IH _ H Ha')].
  unfold notSpace in *. rewrite <- isWhiteSpace_lower, <- Hc, isWhiteSpace_lower.
  exact Hc'.
Qed.

End DialogFacts.

(** X9.  After any sequence of actions the loading flag is set only while
    a request is in flight: once every request has been answered the spinner
    is gone. *)
Theorem X9_loading_needs_request (number : Type) (copy : Copy)
    (actions : list (Action number)) (ss : Session number) :
  perform copy start actions = Some ss ->
  loading (state ss) = false \/ inFlight ss <> [].
Proof.
  apply (@SessionMore.perform_invariant number copy
           (fun ss => loading (state ss) = false \/ inFlight ss <> [])).
  - intros s e s'. apply SessionMore.step_loading.
  - left. reflexivity.
Qed.

(** X9 at a submission with Enter whose request fails. *)
Lemma X9_witness :
  loading (state Sample.afterFailure) = false \/ inFlight Sample.afterFailure <> [].
Proof.
  apply (@X9_loading_needs_request nat AppTsx
           [Change (Str.ofString "alpha"); Key (Str.ofString "Enter");
            Receive 0 Rejected]).
  reflexivity.
Defined.

(** X10.  After any sequence of actions the error cell is null or holds a
    message that is not empty, so every error the state holds is shown. *)
Theorem X10_errors_are_shown (number : Type) (copy : Copy)
    (actions : list (Action number)) (ss : Session number) :
  perform copy start actions = Some ss ->
  error (state ss) <> Some [] /\ shownError (state ss) = error (state ss).
Proof.
  intros H.
  assert (E : error (state ss) = None \/ truthy (error (state ss)) = true).
  { revert H.
    apply (@SessionMore.perform_invariant number copy
             (fun ss => error (state ss) = None \/ truthy (error (state ss)) = true)).
    - intros s e s'. apply SessionMore.step_error.
    - left. reflexivity. }
  unfold shownError. destruct E as [E|E]; rewrite E.
  - split; [discriminate|reflexivity].
  - split; [|reflexivity]. intros E'. rewrite E' in E. discriminate.
Qed.

(** X10 at a submission with Enter whose request fails. *)
Lemma X10_witness :
  error (state Sample.afterFailure) <> Some [] /\
  shownError (state Sample.afterFailure) = error (state Sample.afterFailure).
Proof.
  apply (@X10_errors_are_shown nat AppTsx
           [Change (Str.ofString "alpha"); Key (Str.ofString "Enter");
            Receive 0 Rejected]).
  reflexivity.
Defined.

(** X11.  The results the state holds are never made up or reordered: after
    any sequence of actions they are empty or exactly the results of one of
    the responses received. *)
Theorem X11_results_from_response (number : Type) (copy : Copy)
    (actions : list (Action number)) (ss : Session number) :
  perform copy start actions = Some ss ->
  results (state ss) = [] \/
  exists a, In a actions /\ carried (results (state ss)) a.
Proof.
  intros H. destruct (@SessionMore.perform_results number copy actions start ss H) as [E|[E|E]].
  - left. exact E.
  - left. exact E.
  - right. exact E.
Qed.

(** X11 at a search with the button that is answered with one document. *)
Lemma X11_witness :
  results (state Demo.afterResults) = [] \/
  exists a, In a [Change (Str.ofString "alpha"); ClickSearch;
                  Receive 0 (found [Sample.docA])] /\
            carried (results (state Demo.afterResults)) a.
Proof.
  apply (@X11_results_from_response nat AppTsx
           [Change (Str.ofString "alpha"); ClickSearch;
            Receive 0 (found [Sample.docA])]).
  reflexivity.
Defined.

(** X12.  As long as Enter is not pressed while a search is loading, calls
    of [handleSearch] never overlap, whatever else the user does: at most one
    request is in flight, the spinner shows exactly while it is, then there
    is neither error nor results, and an error is never shown together with
    the result list. *)
Theorem X12_no_overlap_without_enter (number : Type) (copy : Copy)
    (actions : list (Action number)) (ss : Session number) :
  enterWhenIdle copy start actions = true ->
  perform copy start actions = Some ss ->
  length (inFlight ss) <= 1 /\
  (showsSpinner (state ss) = true <-> inFlight ss <> []) /\
  (showsSpinner (state ss) = true ->
   shownError (state ss) = None /\ results (state ss) = []) /\
  (shownError (state ss) = None \/ shownResults (state ss) = []).
Proof.
  intros Hidle H.
  assert (Hc : Calm ss).
  { apply (@SessionMore.perform_calm number copy actions start ss);
      try assumption.
    split; [reflexivity|left; reflexivity]. }
  unfold Calm in Hc. unfold showsSpinner, shownError, shownResults.
  destruct (inFlight ss) as [|x [|y l]]; [| |contradiction].
  - destruct Hc as [Hl [He|Hr]]; rewrite Hl.
    + rewrite He. cbn. repeat split; try congruence; try lia; auto.
    + rewrite Hr. cbn. repeat split; try congruence; try lia; auto.
  - destruct Hc as [Hl [He Hr]]. rewrite Hl, He, Hr. cbn.
    repeat split; try congruence; try lia; auto.
Qed.

(** X12 at a search with the button that is answered with one document. *)
Lemma X12_witness :
  length (inFlight Demo.afterResults) <= 1 /\
  (showsSpinner (state Demo.afterResults) = true <-> inFlight Demo.afterResults <> []) /\
  (showsSpinner (state Demo.afterResults) = true ->
   shownError (state Demo.afterResults) = None /\
   results (state Demo.afterResults) = []) /\
  (shownError (state Demo.afterResults) = None \/
   shownResults (state Demo.afterResults) = []).
Proof.
  apply (@X12_no_overlap_without_enter nat AppTsx
           [Change (Str.ofString "alpha"); ClickSearch; ClickSearch;
            Key (Str.ofString "a"); Receive 0 (found [Sample.docA])]).
  - reflexivity.
  - reflexivity.
Defined.

(** X13.  The body of the dialog, for any selected document and any query:
    the tokenizer and [highlightText] return, the spans put together are the
    text of the document, every marked span is a term of the query up to
    case, is not empty and holds no white space, and the text is shown bare
    exactly when the trimmed query is empty. *)
Theorem X13_dialog_content (number : Type) (s : State number) (d : DocResult number) :
  selectedDoc s = Some d ->
  exists terms r,
    tokenize (query s) = Some terms /\
    dialogContent s = Some (Some r) /\
    concat (map snd (spans r)) = text d /\
    (forall sp, In (matched, sp) (spans r) ->
       sp <> [] /\
       Forall (fun c => CodeUnit.isWhiteSpace c = false) sp /\
       exists t, In t terms /\ Str.toLowerCase t = Str.toLowerCase sp) /\
    (Str.trim (query s) = [] <-> r = RawText (text d)).
Proof.
  intros Hd.
  destruct (HighlightMore.highlightText_lossless (text d) (words (query s))) as [r [Hr Hcat]].
  exists (words (query s)), r.
  split; [apply TokenizeFacts.tokenize_words|].
  split; [unfold dialogContent; rewrite Hd, TokenizeFacts.tokenize_words; cbn [bind];
          rewrite Hr; reflexivity|].
  split; [exact Hcat|]. split.
  - intros sp Hin.
    assert (Ht : isTerm (words (query s)) sp = true).
    { destruct (words (query s)) as [|t ts] eqn:Ew.
      - cbn in Hr. injection Hr as <-. cbn in Hin. destruct Hin as [E|[]]. discriminate.
      - assert (Hne : t :: ts <> []) by discriminate.
        destruct (HighlightFacts.highlightText_pieces (text d) Hne)
          as [pieces [_ [_ Hr']]].
        rewrite Hr in Hr'. injection Hr' as ->. cbn [spans] in Hin.
        apply in_map_iff in Hin. destruct Hin as [p [Hp _]]. unfold spanOf in Hp.
        destruct (isTerm (t :: ts) (textOf (text d) p)) eqn:E; [|discriminate].
        injection Hp as <-. exact E. }
    apply TagFacts.isTerm_iff in Ht. destruct Ht as [t [Hin' Hlow]].
    pose proof (@WordFacts.wordsFrom_wellformed (query s) [] (Forall_nil _)) as Hw.
    fold (words (query s)) in Hw. rewrite Forall_forall in Hw.
    destruct (Hw _ Hin') as [Hne Hns].
    split; [|split].
    + intros ->. destruct t; [congruence|discriminate].
    + exact (@DialogFacts.notSpace_lower t sp Hlow Hns).
    + exists t. split; assumption.
  - rewrite TokenizeMore.trim_nil_iff, <- TokenizeMore.words_nil_iff. split.
    + intros E. rewrite E in Hr. cbn in Hr. congruence.
    + intros ->. destruct (words (query s)) as [|t ts] eqn:Ew; [reflexivity|].
      assert (Hne : t :: ts <> []) by discriminate.
      destruct (HighlightFacts.highlightText_pieces (text d) Hne) as [pieces [_ [_ Hr']]].
      rewrite Hr in Hr'. discriminate.
Qed.

(** X13 at the document [alpha], opened after the query [alpha]. *)
Lemma X13_witness :
  exists terms r,
    tokenize (query Demo.viewing) = Some terms /\
    dialogContent Demo.viewing = Some (Some r) /\
    concat (map snd (spans r)) = text Sample.docA /\
    (forall sp, In (matched, sp) (spans r) ->
       sp <> [] /\
       Forall (fun c => CodeUnit.isWhiteSpace c = false) sp /\
       exists t, In t terms /\ Str.toLowerCase t = Str.toLowerCase sp) /\
    (Str.trim (query Demo.viewing) = [] <-> r = RawText (text Sample.docA)).
Proof.
  apply (@X13_dialog_content nat Demo.viewing Sample.docA). reflexivity.
Defined.

Module SourceFacts.

Section Session.

Variable number : Type.
Variable copy : Copy.

Lemma known_more (done more : list (Action number)) (d : DocResult number) :
  known done d -> known (done ++ more) d.
Proof.
  intros [a [docs [Hin [Hc Hd]]]]. exists a, docs.
  split; [apply in_or_app; left; exact Hin|]. split; assumption.
Qed.

Lemma Sourced_more (done more : list (Action number)) (s : State number) :
  Sourced done s -> Sourced (done ++ more) s.
Proof.
  intros [H1 H2]. split; intros d Hd; apply known_more; auto.
Qed.

Lemma shownResults_results (s : State number) (i : nat) (d : DocResult number) :
  nth_error (shownResults s) i = Some d -> In d (results s).
Proof.
  unfold shownResults.
  destruct (negb (loading s) && negb (length (results s) =? 0)); intros H.
  - eapply nth_error_In, H.
  - destruct i; discriminate.
Qed.

Lemma submit_sourced (done : list (Action number)) (ss ss' : Session number) :
  Sourced done (state ss) -> step copy ss Submit = Some ss' ->
  Sourced done (state ss').
Proof.
  intros [H1 H2] H. cbn [step] in H. unfold handleSearch in H.
  destruct (Str.trim (query (state ss))); injection H as <-; cbn [state];
    split; cbn; intros d Hd; try contradiction; try discriminate; auto.
Qed.

Lemma act_sourced (done : list (Action number)) (ss ss' : Session number)
    (a : Action number) :
  Sourced done (state ss) -> act copy ss a = Some ss' ->
  Sourced (done ++ [a]) (state ss').
Proof.
  intros Hs H. destruct a as [q| |key| |i| |id r]; cbn [act] in H.
  - injection H as <-. apply Sourced_more. exact Hs.
  - destruct (clearShown (state ss)); [|discriminate]. injection H as <-.
    apply Sourced_more. exact Hs.
  - destruct (Str.eqb key (Str.ofString "Enter")).
    + apply Sourced_more. exact (@submit_sourced done ss ss' Hs H).
    + injection H as <-. apply Sourced_more. exact Hs.
  - destruct (loading (state ss)).
    + injection H as <-. apply Sourced_more. exact Hs.
    + apply Sourced_more. exact (@submit_sourced done ss ss' Hs H).
  - destruct (nth_error (shownResults (state ss)) i) as [d|] eqn:E; [|discriminate].
    injection H as <-. apply Sourced_more. destruct Hs as [H1 H2].
    split; cbn; [exact H1|]. intros d' Hd'. injection Hd' as <-.
    apply H1. exact (shownResults_results _ _ E).
  - destruct (dialogOpen (state ss)); [|discriminate]. injection H as <-.
    apply Sourced_more. destruct Hs as [H1 H2]. split; cbn; [exact H1|discriminate].
  - cbn [step] in H. destruct (isInFlight id ss); [|discriminate]. injection H as <-.
    cbn [state]. destruct Hs as [H1 H2]. split.
    + intros d Hd.
      destruct (SessionMore.resume_results copy r (state ss)) as [E|[E|[data [-> E]]]].
      * apply known_more, H1. rewrite <- E. exact Hd.
      * rewrite E in Hd. destruct Hd.
      * exists (Receive id (Resolved data)), (results (resume copy (Resolved data) (state ss))).
        split; [apply in_or_app; right; left; reflexivity|].
        split; [|exact Hd]. exists id, data. split; [reflexivity|exact E].
    + intros d Hd. apply known_more, H2. rewrite <- Hd.
      unfold resume. destruct r as [data|]; cbn; [|reflexivity].
      destruct (truthy (data_error data)); cbn; [reflexivity|].
      destruct (data_results data) as [[|x l]|]; reflexivity.
Qed.

Lemma perform_sourced (actions done : list (Action number)) (ss ss' : Session number) :
  Sourced done (state ss) -> perform copy ss actions = Some ss' ->
  Sourced (done ++ actions) (state ss').
Proof.
  revert done ss. induction actions as [|a actions IH]; intros done ss Hs H.
  - injection H as <-. rewrite app_nil_r. exact Hs.
  - cbn [perform] in H. destruct (act copy ss a) as [ss1|] eqn:E; [|discriminate].
    cbn [bind] in H.
    replace (done ++ a :: actions) with ((done ++ [a]) ++ actions)
      by (rewrite <- app_assoc; reflexivity).
    apply (IH _ ss1); [|exact H]. exact (@act_sourced done ss ss1 a Hs E).
Qed.

End Session.

End SourceFacts.

Module CoverFacts.

Section Terms.

Variable text : Str.t.
Variable terms : list Str.t.
Hypothesis nonempty : terms <> [].
Hypothesis noEmptyTerm : Forall (fun t => t <> []) terms.

(** No occurrence of a term as a whole word lies outside the matches the
    split takes. *)
Lemma tiles_cover (p : nat) (pieces : list Piece) :
  Tiles (combinedRegExp terms) text p pieces ->
  forall q t, p <= q -> termAt text terms q = Some t ->
  exists a b, In (Capture (Some (a, b))) pieces /\ a <= q < b.
Proof.
  assert (Hwide : forall q t, termAt text terms q = Some t -> q < q + length t).
  { intros q t Ht. destruct (HighlightFacts.termAt_Some _ _ _ Ht) as [Hin _].
    rewrite Forall_forall in noEmptyTerm. specialize (noEmptyTerm _ Hin).
    destruct t; [congruence|cbn; lia]. }
  assert (Hnot : forall p q t, p <= q -> q < length text ->
                 termAt text terms q = Some t ->
                 ~ Skipped (combinedRegExp terms) text p q).
  { intros p0 q t Hpq Hq Ht. unfold Skipped.
    rewrite RegExpFacts.matchAt_combined, Ht by exact nonempty.
    cbn [option_map matchOf endIndex].
    pose proof (Hwide _ _ Ht). pose proof (HighlightFacts.termAt_inside _ _ Ht). lia. }
  assert (Hin : forall q t, termAt text terms q = Some t -> q < length text).
  { intros q t Ht. pose proof (Hwide _ _ Ht).
    destruct (HighlightFacts.termAt_Some _ _ _ Ht) as [_ [_ [Hocc _]]].
    apply HighlightFacts.occursAtHead_length in Hocc. rewrite length_skipn in Hocc. lia. }
  induction 1 as [p Hp Hskip|p q0 z rest Hpq Hq Hskip Hz Hne Hrest IH];
    intros q t Hq' Ht.
  - exfalso. apply (Hnot p q t Hq' (Hin _ _ Ht) Ht). apply Hskip.
    split; [exact Hq'|exact (Hin _ _ Ht)].
  - destruct (HighlightFacts.matchAt_term text nonempty _ Hz) as [t0 [Ht0 ->]].
    cbn [endIndex captures map app] in *.
    pose proof (HighlightFacts.termAt_inside _ _ Ht0 (Nat.lt_le_incl _ _ Hq)) as Hin0.
    rewrite Nat.min_l in * by exact Hin0.
    destruct (Nat.lt_ge_cases q q0) as [Hlt|Hge].
    + exfalso. apply (Hnot p q t Hq' (Hin _ _ Ht) Ht). apply Hskip. lia.
    + destruct (Nat.lt_ge_cases q (q0 + length t0)) as [Hlt|Hge'].
      * exists q0, (q0 + length t0). split; [right; left; reflexivity|lia].
      * destruct (IH q t Hge' Ht) as [a [b [Hab Hq2]]].
        exists a, b. split; [right; right; exact Hab|exact Hq2].
Qed.

End Terms.

End CoverFacts.

(** X14.  After any sequence of actions every document in the results, and
    the document the dialog shows, is a document that one of the responses
    received carried in its results. *)
Theorem X14_documents_from_responses (number : Type) (copy : Copy)
    (actions : list (Action number)) (ss : Session number) :
  perform copy start actions = Some ss ->
  Sourced actions (state ss).
Proof.
  intros H.
  apply (@SourceFacts.perform_sourced number copy actions [] start ss); [|exact H].
  split; cbn; [contradiction|discriminate].
Qed.

(** X14 at a search with the button that is answered with one document. *)
Lemma X14_witness :
  Sourced [Change (Str.ofString "alpha"); ClickSearch; Receive 0 (found [Sample.docA])]
          (state Demo.afterResults).
Proof.
  apply (@X14_documents_from_responses nat AppTsx
           [Change (Str.ofString "alpha"); ClickSearch;
            Receive 0 (found [Sample.docA])]).
  reflexivity.
Defined.

(** X15.  No occurrence is missed: when no term is empty, every index at
    which a term occurs as a whole word lies inside a match the split takes,
    and that match is one of the parts of the rendering. *)
Theorem X15_occurrences_covered (text : Str.t) (terms : list Str.t) (q : nat)
    (t : Str.t) :
  terms <> [] ->
  Forall (fun t => t <> []) terms ->
  termAt text terms q = Some t ->
  exists pieces a b,
    splitPieces (combinedRegExp terms) text = Some pieces /\
    segment text terms = Some (map (spanOf terms text) pieces) /\
    In (Capture (Some (a, b))) pieces /\ a <= q < b /\ b <= length text /\
    snd (spanOf terms text (Capture (Some (a, b)))) = Str.substring text a b.
Proof.
  intros Hne Hterms Ht.
  destruct (HighlightFacts.highlightText_pieces text Hne) as [pieces [Hs [Htiles Hr]]].
  destruct (CoverFacts.tiles_cover Hne Hterms Htiles (Nat.le_0_l q) Ht)
    as [a [b [Hin Hq]]].
  exists pieces, a, b. split; [exact Hs|].
  split; [unfold segment; rewrite Hr; reflexivity|].
  split; [exact Hin|].
  destruct (OccurrenceFacts.tiles_occurrences Hne Htiles _ Hin)
    as [a' [t' [E [_ [Hlen _]]]]].
  injection E as <- ->.
  split; [exact Hq|]. split; [exact Hlen|reflexivity].
Qed.

(** X15 at the second [cat] of [category cat]. *)
Lemma X15_witness :
  exists pieces a b,
    splitPieces (combinedRegExp [Str.ofString "cat"]) (Str.ofString "category cat")
      = Some pieces /\
    segment (Str.ofString "category cat") [Str.ofString "cat"] =
      Some (map (spanOf [Str.ofString "cat"] (Str.ofString "category cat")) pieces) /\
    In (Capture (Some (a, b))) pieces /\
    a <= 9 < b /\ b <= length (Str.ofString "category cat") /\
    snd (spanOf [Str.ofString "cat"] (Str.ofString "category cat")
           (Capture (Some (a, b))))
    = Str.substring (Str.ofString "category cat") a b.
Proof.
  apply (@X15_occurrences_covered (Str.ofString "category cat") [Str.ofString "cat"]
           9 (Str.ofString "cat")).
  - discriminate.
  - repeat constructor; discriminate.
  - reflexivity.
Defined.
